(** * Feedback-Copilot: retrieval fusion, PII anonymisation and guardrails

    A shallow embedding of the parts of the feedback-copilot repository that
    its specification makes statements about:

    - the PII pattern table of [services/pii.py] and the pseudonym hash
      [_hash], as excerpted in the project documentation;
    - the reciprocal-rank-fusion loop of [services/vectorstore.py];
    - the relevance threshold and the unanswerable guard of [services/rag.py];
    - the source-distribution bars of the dashboard page and the PII preview
      of the ingest page (TypeScript front end).

    Further parts of the code are embedded for properties of their own:

    - the query tokenizer of the keyword search and the post-processing
      of the shown sources;
    - the sorted statistics, the problem cards and the bar widths of the
      dashboard and analytics pages;
    - the filters and the pagination of the feedback list page;
    - the upload handler of the ingest page and the submit handler of the
      chat page;
    - the weighted score, the winner and the category toggle of the
      evaluation page;
    - the filters, the grouping and the CSV rows of the export page, and
      the save/load round trip of the settings page.

    Python [str] values are modelled as lists of code points restricted to
    Latin-1 (one [ascii] per code point, U+0000..U+00FF); Python floats and
    JavaScript numbers are modelled as exact rationals. *)

From Stdlib Require Import Bool Arith List Ascii String ZArith NArith QArith Lia Lqa.
From Stdlib Require Import Sorting.Sorted Sorting.Permutation.
From stdpp Require Import gmap strings list fin_maps.

Local Open Scope nat_scope.

(* ===================================================================== *)
(** ** Text: Python [str] over Latin-1                                    *)
(* ===================================================================== *)

Module Text.

(** A Python string: a sequence of code points below U+0100. *)
Definition str := list ascii.

Definition of_string (s : string) : str := list_ascii_of_string s.
Definition to_string (s : str) : string := string_of_list_ascii s.

Definition code (c : ascii) : nat := nat_of_ascii c.

(** A set of characters given as inclusive code-point ranges, the way a
    bracket expression [[A-Za-z0-9._%+-]] lists them. *)
Definition charset := list (nat * nat).

Definition in_range (c : ascii) (r : nat * nat) : bool :=
  (fst r <=? code c) && (code c <=? snd r).

Definition in_class (cs : charset) (c : ascii) : bool :=
  existsb (in_range c) cs.

Definition chr (s : string) : nat :=
  match s with
  | String c _ => code c
  | EmptyString => 0
  end.

Definition rng (a b : string) : nat * nat := (chr a, chr b).
Definition one (a : string) : nat * nat := (chr a, chr a).

(** [\d] on a Python 3 [str]: decimal digits; below U+0100 these are 0-9. *)
Definition digit : charset := [rng "0" "9"].

(** [\s] on a Python 3 [str]: [str.isspace]; below U+0100 these are
    TAB..CR, FS..US, SPACE, NEL (U+0085) and NBSP (U+00A0). *)
Definition space : charset := [(9, 13); (28, 32); (133, 133); (160, 160)].

(** [\w] on a Python 3 [str]: [str.isalnum] or underscore; below U+0100. *)
Definition word : charset :=
  [rng "0" "9"; rng "A" "Z"; one "_"; rng "a" "z";
   (170, 170); (178, 179); (181, 181); (185, 186); (188, 190);
   (192, 214); (216, 246); (248, 255)].

Definition is_word (c : option ascii) : bool :=
  match c with
  | Some a => in_class word a
  | None => false
  end.

(** [needle in hay] *)
Fixpoint starts_with (needle hay : str) : bool :=
  match needle, hay with
  | [], _ => true
  | _ :: _, [] => false
  | a :: n', b :: h' => Ascii.eqb a b && starts_with n' h'
  end.

Fixpoint contains (needle hay : str) : bool :=
  starts_with needle hay ||
  match hay with
  | [] => false
  | _ :: h' => contains needle h'
  end.

(** [str.lower] / [String.prototype.toUpperCase] on the ASCII letters and
    the Latin-1 letters that have a Latin-1 counterpart. *)
Definition upper_char (c : ascii) : ascii :=
  let n := code c in
  if ((97 <=? n) && (n <=? 122)) || ((224 <=? n) && (n <=? 254) && negb (n =? 247))
  then ascii_of_nat (n - 32) else c.

Definition lower_char (c : ascii) : ascii :=
  let n := code c in
  if ((65 <=? n) && (n <=? 90)) || ((192 <=? n) && (n <=? 222) && negb (n =? 215))
  then ascii_of_nat (n + 32) else c.

Definition upper (s : str) : str := map upper_char s.
Definition lower (s : str) : str := map lower_char s.

End Text.

(* ===================================================================== *)
(** ** Regex: the fragment of Python [re] used by the PII patterns        *)
(* ===================================================================== *)

Module Regex.
Import Text.

(** Greedy, backtracking regular expressions: a single character from a
    set, a bounded greedy repetition [{lo,hi}] of a set ([hi = None] for
    [+] and [{n,}]), the assertion [\b], concatenation and ordered
    alternation. *)
Inductive regex : Type :=
| Chr (cs : charset)
| Rep (cs : charset) (lo : nat) (hi : option nat)
| WordB
| Cat (r1 r2 : regex)
| Or (r1 r2 : regex).

(** A continuation receives the character before the cursor, the rest of
    the text and the number of characters consumed so far. *)
Definition cont := option ascii -> str -> nat -> option nat.

Definition may_repeat (hi : option nat) : bool :=
  match hi with
  | Some 0 => false
  | _ => true
  end.

Definition dec (hi : option nat) : option nat :=
  match hi with
  | Some h => Some (pred h)
  | None => None
  end.

(** Greedy repetition: take one more character first and fall back to
    stopping here when the rest of the pattern fails. *)
Fixpoint rep (cs : charset) (lo : nat) (hi : option nat) (k : cont)
    (prev : option ascii) (s : str) (n : nat) {struct s} : option nat :=
  let stop := match lo with
              | 0 => k prev s n
              | S _ => None
              end in
  match s with
  | [] => stop
  | c :: s' =>
      if may_repeat hi && in_class cs c then
        match rep cs (pred lo) (dec hi) k (Some c) s' (S n) with
        | Some r => Some r
        | None => stop
        end
      else stop
  end.

Fixpoint run (r : regex) (k : cont) : cont :=
  match r with
  | Chr cs => fun prev s n =>
      match s with
      | c :: s' => if in_class cs c then k (Some c) s' (S n) else None
      | [] => None
      end
  | Rep cs lo hi => rep cs lo hi k
  | WordB => fun prev s n =>
      if xorb (is_word prev) (is_word (head s)) then k prev s n else None
  | Cat r1 r2 => run r1 (run r2 k)
  | Or r1 r2 => fun prev s n =>
      match run r1 k prev s n with
      | Some x => Some x
      | None => run r2 k prev s n
      end
  end.

(** [pattern.match] at the cursor: the length of the match the
    backtracking search finds first. *)
Definition match_at (r : regex) (prev : option ascii) (s : str) : option nat :=
  run r (fun _ _ n => Some n) prev s 0.

(** [re.finditer]: non-overlapping matches, scanning left to right; after
    a match the scan resumes at its end.  [skip] counts the characters of
    the current match still to be stepped over.  The PII patterns cannot
    match the empty string, so empty matches are not reported. *)
Fixpoint scan (r : regex) (prev : option ascii) (s : str) (pos skip : nat)
    : list (nat * nat) :=
  match s with
  | [] => []
  | c :: s' =>
      match skip with
      | S sk => scan r (Some c) s' (S pos) sk
      | 0 =>
          match match_at r prev s with
          | Some (S len) => (pos, pos + S len) :: scan r (Some c) s' (S pos) len
          | _ => scan r (Some c) s' (S pos) 0
          end
      end
  end.

Definition finditer (r : regex) (s : str) : list (nat * nat) :=
  scan r None s 0 0.

(** [re.search(...) is not None] *)
Definition search (r : regex) (s : str) : bool :=
  match finditer r s with
  | [] => false
  | _ :: _ => true
  end.

(** Literal text, e.g. [0049]. *)
Fixpoint lit (s : str) : regex :=
  match s with
  | [] => Rep [] 0 (Some 0)
  | [c] => Chr [(code c, code c)]
  | c :: s' => Cat (Chr [(code c, code c)]) (lit s')
  end.

(** A lower bound on the length of every match. *)
Fixpoint min_len (r : regex) : nat :=
  match r with
  | Chr _ => 1
  | Rep _ lo _ => lo
  | WordB => 0
  | Cat r1 r2 => min_len r1 + min_len r2
  | Or r1 r2 => Nat.min (min_len r1) (min_len r2)
  end.

(** Number of pattern positions that are not a literal character. *)
Fixpoint wildcards (r : regex) : nat :=
  match r with
  | Chr [(a, b)] => if a =? b then 0 else 1
  | Chr _ => 1
  | Rep _ _ _ => 1
  | WordB => 0
  | Cat r1 r2 => wildcards r1 + wildcards r2
  | Or r1 r2 => wildcards r1 + wildcards r2
  end.

End Regex.

(* ===================================================================== *)
(** ** Ordering: stable insertion sort, as Python's [sorted] is stable    *)
(* ===================================================================== *)

Module Ordering.
Section Sort.
Context {A : Type} (leb : A -> A -> bool).

Fixpoint insert (x : A) (l : list A) : list A :=
  match l with
  | [] => [x]
  | y :: l' => if leb x y then x :: l else y :: insert x l'
  end.

(** [sorted(l, key=...)]: among equal keys the input order is kept. *)
Definition sort (l : list A) : list A := fold_right insert [] l.

(** The relation decided by [leb]. *)
Definition holds (a b : A) : Prop := leb a b = true.
End Sort.

Section Comparisons.
Context {A : Type}.

(** Sort keys compared one after the other: first [c1]; on a tie
    [c2]. *)
Definition then_by (c1 c2 : A -> A -> comparison) (x y : A) : comparison :=
  match c1 x y with
  | Eq => c2 x y
  | c => c
  end.

(** [x] may stand before [y]. *)
Definition not_after (cmp : A -> A -> comparison) (x y : A) : bool :=
  match cmp x y with
  | Gt => false
  | _ => true
  end.


End Comparisons.
End Ordering.

(* ===================================================================== *)
(** ** Sha256: [hashlib.sha256] (FIPS 180-4)                              *)
(* ===================================================================== *)

Module Sha256.
Local Open Scope N_scope.

(** 32-bit words as [N] with the wrap-around written out. *)
Definition mask32 : N := 0xffffffff.
Definition w32 (x : N) : N := N.land x mask32.
Definition add32 (a b : N) : N := w32 (a + b).
Definition not32 (x : N) : N := N.lxor x mask32.
Definition rotr (n x : N) : N := N.lor (N.shiftr x n) (w32 (N.shiftl x (32 - n))).

Definition Ch (x y z : N) : N := N.lxor (N.land x y) (N.land (not32 x) z).
Definition Maj (x y z : N) : N :=
  N.lxor (N.lxor (N.land x y) (N.land x z)) (N.land y z).
Definition Sigma0 (x : N) : N := N.lxor (N.lxor (rotr 2 x) (rotr 13 x)) (rotr 22 x).
Definition Sigma1 (x : N) : N := N.lxor (N.lxor (rotr 6 x) (rotr 11 x)) (rotr 25 x).
Definition sigma0 (x : N) : N := N.lxor (N.lxor (rotr 7 x) (rotr 18 x)) (N.shiftr x 3).
Definition sigma1 (x : N) : N := N.lxor (N.lxor (rotr 17 x) (rotr 19 x)) (N.shiftr x 10).

(** The first 64 primes. *)
Definition is_prime (n : nat) : bool :=
  forallb (fun d => negb (n mod d =? 0)%nat) (seq 2 (n - 2)).

Definition primes : list N :=
  map N.of_nat (List.filter is_prime (seq 2 310)).

(** Integer cube root of a number below 2^108, bit by bit. *)
Definition cbrt (n : N) : N :=
  fold_left (fun r bit => let c := r + N.shiftl 1 bit in
                          if c * c * c <=? n then c else r)
            (map N.of_nat (rev (seq 0 36))) 0.

(** Round constants: the first 32 bits of the fractional parts of the
    cube roots of the first 64 primes. *)
Definition K : list N :=
  Eval vm_compute in map (fun p => w32 (cbrt (N.shiftl p 96))) primes.

(** The eight working variables / the chaining value. *)
Record state : Type := St { sa : N; sb : N; sc : N; sd : N;
                            se : N; sf : N; sg : N; sh : N }.

(** Initial value: the first 32 bits of the fractional parts of the
    square roots of the first 8 primes. *)
Definition iv (i : nat) : N := w32 (N.sqrt (N.shiftl (nth i primes 0) 64)).

Definition H0 : state :=
  Eval vm_compute in St (iv 0) (iv 1) (iv 2) (iv 3) (iv 4) (iv 5) (iv 6) (iv 7).

Definition round (s : state) (k w : N) : state :=
  let t1 := add32 (add32 (add32 (add32 (sh s) (Sigma1 (se s))) (Ch (se s) (sf s) (sg s))) k) w in
  let t2 := add32 (Sigma0 (sa s)) (Maj (sa s) (sb s) (sc s)) in
  St (add32 t1 t2) (sa s) (sb s) (sc s) (add32 (sd s) t1) (se s) (sf s) (sg s).

(** The message schedule as a sliding window of sixteen words:
    [win = W[t .. t+15]]. *)
Definition next_word (win : list N) : N :=
  add32 (add32 (add32 (sigma1 (nth 14%nat win 0)) (nth 9%nat win 0))
               (sigma0 (nth 1%nat win 0)))
        (nth 0%nat win 0).

Fixpoint rounds (ks : list N) (win : list N) (s : state) : state :=
  match ks with
  | [] => s
  | k :: ks' =>
      rounds ks' (tl win ++ [next_word win]) (round s k (nth 0%nat win 0))
  end.

(** Big-endian words of a 64-byte block. *)
Fixpoint words (bs : list N) : list N :=
  match bs with
  | b0 :: b1 :: b2 :: b3 :: bs' =>
      (N.shiftl b0 24 + N.shiftl b1 16 + N.shiftl b2 8 + b3) :: words bs'
  | _ => []
  end.

Definition compress (s : state) (block : list N) : state :=
  let r := rounds K (words block) s in
  St (add32 (sa s) (sa r)) (add32 (sb s) (sb r)) (add32 (sc s) (sc r))
     (add32 (sd s) (sd r)) (add32 (se s) (se r)) (add32 (sf s) (sf r))
     (add32 (sg s) (sg r)) (add32 (sh s) (sh r)).

(** Padding: 0x80, zeros up to 56 mod 64, the bit length on 64 bits. *)
Definition be64 (n : N) : list N :=
  map (fun i => N.land (N.shiftr n (8 * i)) 0xff) [7; 6; 5; 4; 3; 2; 1; 0].

Definition pad (msg : list N) : list N :=
  let len := N.of_nat (length msg) in
  let zeros := N.to_nat ((119 - len mod 64) mod 64) in
  msg ++ [0x80] ++ repeat 0 zeros ++ be64 (8 * len).

(** Absorb the padded message byte by byte, compressing every full
    block. *)
Definition absorb (acc : state * list N) (b : N) : state * list N :=
  let buf := snd acc ++ [b] in
  if (length buf =? 64)%nat then (compress (fst acc) buf, []) else (fst acc, buf).

Definition digest (msg : list N) : state :=
  fst (fold_left absorb (pad msg) (H0, [])).

Definition hex_digit (n : N) : ascii :=
  if n <? 10 then ascii_of_N (48 + n) else ascii_of_N (87 + n).

Definition hex_word (w : N) : list ascii :=
  map (fun i => hex_digit (N.land (N.shiftr w (4 * i)) 0xf)) [7; 6; 5; 4; 3; 2; 1; 0].

(** [hashlib.sha256(data).hexdigest()] *)
Definition hexdigest (msg : list N) : list ascii :=
  let s := digest msg in
  hex_word (sa s) ++ hex_word (sb s) ++ hex_word (sc s) ++ hex_word (sd s) ++
  hex_word (se s) ++ hex_word (sf s) ++ hex_word (sg s) ++ hex_word (sh s).

End Sha256.

(* ===================================================================== *)
(** ** PII: the pattern table and the anonymizer                          *)
(* ===================================================================== *)

Module PII.
Import Text Regex.

(** [PIIMatch.kind] *)
Inductive kind : Type := Email | PhoneDe | PlateDe | Vin | Date | PersonName.

Definition cat (rs : list regex) : regex :=
  match rs with
  | [] => lit []
  | r :: rs' => fold_left Cat rs' r
  end.

Definition plus (cs : charset) : regex := Rep cs 1 None.
Definition opt (cs : charset) : regex := Rep cs 0 (Some 1).
Definition between (cs : charset) (lo hi : nat) : regex := Rep cs lo (Some hi).

(** [[\s\-]] *)
Definition sep : charset := space ++ [one "-"].

(** ["email": r'\b[A-Za-z0-9._%+-]+@[A-Za-z0-9.-]+\.[A-Z|a-z]{2,}\b'] *)
Definition email_re : regex :=
  cat [WordB;
       plus [rng "A" "Z"; rng "a" "z"; rng "0" "9";
             one "."; one "_"; one "%"; one "+"; one "-"];
       Chr [one "@"];
       plus [rng "A" "Z"; rng "a" "z"; rng "0" "9"; one "."; one "-"];
       Chr [one "."];
       Rep [rng "A" "Z"; one "|"; rng "a" "z"] 2 None;
       WordB].

(** ["phone_de": r'\b(?:\+49|0049|0)[\s\-]?(?:\d{2,4})[\s\-]?\d{3,8}\b'] *)
Definition phone_de_re : regex :=
  cat [WordB;
       Or (Or (lit (of_string "+49")) (lit (of_string "0049"))) (lit (of_string "0"));
       opt sep;
       between digit 2 4;
       opt sep;
       between digit 3 8;
       WordB].

(** ["plate_de": r'\b[A-ZÄÖÜ]{1,3}[\s\-]?[A-Z]{1,2}[\s\-]?\d{1,4}[EH]?\b'];
    the umlauts are U+00C4, U+00D6, U+00DC. *)
Definition plate_de_re : regex :=
  cat [WordB;
       between [rng "A" "Z"; (196, 196); (214, 214); (220, 220)] 1 3;
       opt sep;
       between [rng "A" "Z"] 1 2;
       opt sep;
       between digit 1 4;
       opt [one "E"; one "H"];
       WordB].

(** ["vin": r'\b[A-HJ-NPR-Z0-9]{17}\b'] *)
Definition vin_re : regex :=
  cat [WordB;
       between [rng "A" "H"; rng "J" "N"; one "P"; rng "R" "Z"; rng "0" "9"] 17 17;
       WordB].

(** The date row of the documentation's pattern table:
    [\d{1,2}\.\d{1,2}\.\d{2,4}]. *)
Definition date_re : regex :=
  cat [between digit 1 2; Chr [one "."];
       between digit 1 2; Chr [one "."];
       between digit 2 4].

(** One registered detector: the kind it reports, its matching rule and
    the fixed tag that replaces a match ("Ersetzt durch"). *)
Record detector : Type := {
  det_kind : kind;
  det_pattern : regex;
  det_tag : str
}.

(** [self.patterns], in dictionary order, with the replacement column of
    the pattern table; the date row comes last. *)
Definition patterns : list detector :=
  [ {| det_kind := Email;   det_pattern := email_re;    det_tag := of_string "[EMAIL]" |};
    {| det_kind := PhoneDe; det_pattern := phone_de_re; det_tag := of_string "[TELEFON]" |};
    {| det_kind := PlateDe; det_pattern := plate_de_re; det_tag := of_string "[KENNZEICHEN]" |};
    {| det_kind := Vin;     det_pattern := vin_re;      det_tag := of_string "[VIN]" |};
    {| det_kind := Date;    det_pattern := date_re;     det_tag := of_string "[DATUM]" |} ].

(** [PIIMatch]: kind, span into the raw text, the matched value and the
    replacement token.  [specificity] is the number of wildcard positions
    of the pattern that produced it. *)
Record PIIMatch : Type := {
  pm_kind : kind;
  pm_start : nat;
  pm_end : nat;
  original_value : str;
  replacement_token : str;
  specificity : nat
}.

Definition slice (s : str) (a b : nat) : str := firstn (b - a) (skipn a s).

Definition mk_match (d : detector) (text : str) (span : nat * nat) : PIIMatch :=
  {| pm_kind := det_kind d;
     pm_start := fst span;
     pm_end := snd span;
     original_value := slice text (fst span) (snd span);
     replacement_token := det_tag d;
     specificity := wildcards (det_pattern d) |}.

(** One detector applied to a text: [(text) -> matches]. *)
Definition run_detector (d : detector) (text : str) : list PIIMatch :=
  map (mk_match d text) (finditer (det_pattern d) text).

(** All candidate matches of all registered detectors. *)
Definition detect_with (ds : list detector) (text : str) : list PIIMatch :=
  flat_map (fun d => run_detector d text) ds.

Definition detect (text : str) : list PIIMatch := detect_with patterns text.

(** Modelled from the spec: the resolution order of candidate matches;
    the body of [anonymize] is not part of the excerpted sources.
    Earliest start first; on equal start the more specific pattern (fewer
    wildcard positions) first. *)
Definition precedes (a b : PIIMatch) : bool :=
  (pm_start a <? pm_start b) ||
  ((pm_start a =? pm_start b) && (specificity a <=? specificity b)).

Definition order_matches (l : list PIIMatch) : list PIIMatch :=
  Ordering.sort precedes l.

(** Modelled from the spec: overlap resolution.  Walking the ordered
    candidates, a candidate is kept when it starts at or after the end of
    the last kept match; [limit] is that end. *)
Fixpoint resolve (limit : nat) (l : list PIIMatch) : list PIIMatch :=
  match l with
  | [] => []
  | m :: l' =>
      if limit <=? pm_start m then m :: resolve (pm_end m) l'
      else resolve limit l'
  end.

(** Modelled from the spec: the single left-to-right pass that assembles
    the new string against the offsets of the original one.  [pos] is the
    offset of the first character of [rest] in the raw text. *)
Fixpoint assemble (pos : nat) (rest : str) (ms : list PIIMatch) : str :=
  match ms with
  | [] => rest
  | m :: ms' =>
      firstn (pm_start m - pos) rest ++ replacement_token m ++
      assemble (pm_end m) (skipn (pm_end m - pos) rest) ms'
  end.

Definition selected_with (ds : list detector) (text : str) : list PIIMatch :=
  resolve 0 (order_matches (detect_with ds text)).

(** Modelled from the spec: [anonymize(raw_text) -> (anonymized_text,
    matches)]. *)
Definition anonymize_with (ds : list detector) (raw_text : str) : str * list PIIMatch :=
  let ms := selected_with ds raw_text in
  (assemble 0 raw_text ms, ms).

Definition anonymize (raw_text : str) : str * list PIIMatch :=
  anonymize_with patterns raw_text.

Definition anonymized_text (raw_text : str) : str := fst (anonymize raw_text).

(** The service object; its only state is the pattern table. *)
Record PIIService : Type := { self_patterns : list detector }.

Definition service : PIIService := {| self_patterns := patterns |}.

(** [str.encode()]: UTF-8 of code points below U+0100. *)
Definition encode_char (c : ascii) : list N :=
  let n := N_of_ascii c in
  if (n <? 128)%N then [n]
  else [(192 + N.shiftr n 6)%N; (128 + N.land n 63)%N].

Definition encode (value : str) : list N := flat_map encode_char value.

(** [def _hash(self, value): return
    hashlib.sha256(value.encode()).hexdigest()[:16]] *)
Definition _hash (self : PIIService) (value : str) : str :=
  firstn 16 (Sha256.hexdigest (encode value)).

(** [PIIMatch.pseudonym] *)
Definition pseudonym (self : PIIService) (m : PIIMatch) : str :=
  _hash self (original_value m).


(** Some registered pattern matches somewhere in the text. *)
Definition has_pii (text : str) : bool :=
  existsb (fun d => search (det_pattern d) text) patterns.

(** Two spans share a character. *)
Definition overlaps (a b : PIIMatch) : Prop :=
  pm_start a < pm_end b /\ pm_start b < pm_end a.

(** The scenario text of the specification. *)
Definition scenario : str :=
  of_string "Kontakt: max.mustermann@vw.de, Tel 0049 151 2345678, B-AB 1234".

(** An e-mail address whose top-level domain also starts a plate. *)
Definition overlap_text : str := of_string "x@y.DE-AB 123".

(** A plate whose digits run into a date. *)
Definition adjacent_text : str := of_string "B-AB 12341.1.2026".

End PII.


(* ===================================================================== *)
(** ** Fusion: reciprocal rank fusion of the two ranked lists             *)
(* ===================================================================== *)

Module Fusion.
Local Open Scope Q_scope.

Inductive method : Type := Lexical | Semantic.

(** [RankedCandidate]; also the value stored under a document id in
    [vector_rankings] / [bm25_rankings]. *)
Record RankedCandidate : Type := {
  document_id : string;
  rank : nat;
  method_score : Q
}.

Record FusedCandidate : Type := {
  fused_id : string;
  fused_score : Q;
  contributing_methods : list method
}.

(** [k = 60  # Standard-Konstante] *)
Definition K : nat := 60.

(** [1 / (60 + rankings[doc_id]["rank"])] *)
Definition reciprocal (r : nat) : Q := 1 / inject_Z (Z.of_nat (K + r)).

(** The body of the fusion loop:
[[
  rrf_score = 0
  if doc_id in vector_rankings:
      rrf_score += 1 / (60 + vector_rankings[doc_id]["rank"])
  if doc_id in bm25_rankings:
      rrf_score += 1 / (60 + bm25_rankings[doc_id]["rank"])
]] *)
Definition rrf_score (vector_rankings bm25_rankings : gmap string RankedCandidate)
    (doc_id : string) : Q :=
  let rrf_score := 0 in
  let rrf_score :=
    match vector_rankings !! doc_id with
    | Some c => rrf_score + reciprocal (rank c)
    | None => rrf_score
    end in
  let rrf_score :=
    match bm25_rankings !! doc_id with
    | Some c => rrf_score + reciprocal (rank c)
    | None => rrf_score
    end in
  rrf_score.

Definition methods_of (vector_rankings bm25_rankings : gmap string RankedCandidate)
    (doc_id : string) : list method :=
  match bm25_rankings !! doc_id with Some _ => [Lexical] | None => [] end ++
  match vector_rankings !! doc_id with Some _ => [Semantic] | None => [] end.

Definition candidate (vector_rankings bm25_rankings : gmap string RankedCandidate)
    (doc_id : string) : FusedCandidate :=
  {| fused_id := doc_id;
     fused_score := rrf_score vector_rankings bm25_rankings doc_id;
     contributing_methods := methods_of vector_rankings bm25_rankings doc_id |}.

(** [for doc_id in all_candidates: ...] *)
Definition score_all (vector_rankings bm25_rankings : gmap string RankedCandidate)
    (all_candidates : list string) : list FusedCandidate :=
  map (candidate vector_rankings bm25_rankings) all_candidates.

(** Modelled from the spec: the rankings dictionary of one method, keyed
    by document id; the code that fills it is not part of the excerpt. *)
Definition rankings (ranked : list RankedCandidate) : gmap string RankedCandidate :=
  list_to_map (map (fun c => (document_id c, c)) ranked).

(** Modelled from the spec: a list of search hits [(document_id,
    raw_score)] becomes ranked candidates with 1-based positions. *)
Fixpoint ranked_from (pos : nat) (hits : list (string * Q)) : list RankedCandidate :=
  match hits with
  | [] => []
  | (d, s) :: hits' =>
      {| document_id := d; rank := pos; method_score := s |} :: ranked_from (S pos) hits'
  end.

Definition ranked (hits : list (string * Q)) : list RankedCandidate := ranked_from 1 hits.

(** Modelled from the spec: every distinct document of either list. *)
Definition all_candidates (vector_rankings bm25_rankings : gmap string RankedCandidate)
    : list string :=
  elements (dom vector_rankings ∪ dom bm25_rankings).

(** Raw lexical score of a document; a document that is not in the
    lexical list has none and ranks below every document that has one. *)
Definition lexical_score (bm25_rankings : gmap string RankedCandidate) (doc_id : string)
    : option Q :=
  method_score <$> bm25_rankings !! doc_id.

Definition compare_scores (x y : option Q) : comparison :=
  match x, y with
  | None, None => Eq
  | None, Some _ => Lt
  | Some _, None => Gt
  | Some a, Some b => a ?= b
  end.

(** Modelled from the spec: the output order.  Higher fused score first;
    then higher raw lexical score; then the smaller document id. *)
Definition by_fused_score (a b : FusedCandidate) : comparison :=
  fused_score b ?= fused_score a.

Definition by_lexical_score (bm25_rankings : gmap string RankedCandidate)
    (a b : FusedCandidate) : comparison :=
  compare_scores (lexical_score bm25_rankings (fused_id b))
                 (lexical_score bm25_rankings (fused_id a)).

Definition by_document_id (a b : FusedCandidate) : comparison :=
  String.compare (fused_id a) (fused_id b).

Definition compare_candidates (bm25_rankings : gmap string RankedCandidate)
    : FusedCandidate -> FusedCandidate -> comparison :=
  Ordering.then_by by_fused_score
    (Ordering.then_by (by_lexical_score bm25_rankings) by_document_id).

Definition before (bm25_rankings : gmap string RankedCandidate)
    : FusedCandidate -> FusedCandidate -> bool :=
  Ordering.not_after (compare_candidates bm25_rankings).

Definition fuse_rankings (vector_rankings bm25_rankings : gmap string RankedCandidate)
    (candidates : list string) : list FusedCandidate :=
  Ordering.sort (before bm25_rankings)
    (score_all vector_rankings bm25_rankings candidates).

(** Modelled from the spec: [fuse(lexical_ranked, semantic_ranked)]. *)
Definition fuse (lexical_ranked semantic_ranked : list RankedCandidate)
    : list FusedCandidate :=
  let bm25_rankings := rankings lexical_ranked in
  let vector_rankings := rankings semantic_ranked in
  fuse_rankings vector_rankings bm25_rankings
    (all_candidates vector_rankings bm25_rankings).

(** The contribution of one method to a document: nothing when the
    document is not in that method's list. *)
Definition term (r : option nat) : Q :=
  match r with
  | Some n => reciprocal n
  | None => 0
  end.




(** [rankings[doc_id]["rank"]], when the document is in the list. *)
Definition rank_of (rankings : gmap string RankedCandidate) (doc_id : string)
    : option nat :=
  rank <$> rankings !! doc_id.

Definition at_rank_1 (rankings : gmap string RankedCandidate) (doc_id : string) : bool :=
  match rank_of rankings doc_id with
  | Some 1%nat => true
  | _ => false
  end.

(** Sample hits: D1 leads both lists; D2 leads the semantic list only and
    is second in the lexical one. *)
Definition both_lexical : list (string * Q) := [("D1"%string, 7 # 2); ("D3"%string, 3 # 1)].
Definition both_semantic : list (string * Q) := [("D1"%string, 9 # 10); ("D2"%string, 8 # 10)].
Definition one_lexical : list (string * Q) := [("D1"%string, 7 # 2); ("D2"%string, 3 # 1)].
Definition one_semantic : list (string * Q) := [("D2"%string, 9 # 10); ("D1"%string, 8 # 10)].

(** Sample lists with two entries of equal rank and equal score, in both
    arrangements. *)
Definition tied : list RankedCandidate :=
  [ {| document_id := "FB-2"; rank := 1; method_score := 5 # 1 |};
    {| document_id := "FB-1"; rank := 1; method_score := 5 # 1 |} ].

Definition tied_swapped : list RankedCandidate :=
  [ {| document_id := "FB-1"; rank := 1; method_score := 5 # 1 |};
    {| document_id := "FB-2"; rank := 1; method_score := 5 # 1 |} ].

End Fusion.

(* ===================================================================== *)
(** ** Relevance: the threshold on retrieved sources                      *)
(* ===================================================================== *)

Module Relevance.
Import Text.
Local Open Scope Q_scope.

(** [EvidenceItem]: one entry of [sources] (the chat page's [Source]:
    id, text, score, metadata). *)
Record EvidenceItem : Type := {
  document_id : string;
  text_snippet : str;
  fused_score : Q;
  metadata : list (string * string)
}.

(** [MIN_RELEVANCE_SCORE = 0.015] *)
Definition MIN_RELEVANCE_SCORE : Q := 15 # 1000.

(** [relevant_sources = [s for s in sources
                         if s["score"] >= MIN_RELEVANCE_SCORE]] *)
Definition relevant_sources (min_score : Q) (sources : list EvidenceItem)
    : list EvidenceItem :=
  List.filter (fun s => Qle_bool min_score (fused_score s)) sources.

(** Modelled from the spec: [filter(fused_candidates, min_score,
    max_results)] truncates what passes the threshold; the truncation is
    not part of the excerpt. *)
Definition filter (fused_candidates : list EvidenceItem) (min_score : Q)
    (max_results : nat) : list EvidenceItem :=
  firstn max_results (relevant_sources min_score fused_candidates).

End Relevance.

(* ===================================================================== *)
(** ** Composer: the guardrailed answer composition                       *)
(* ===================================================================== *)

Module Composer.
Import Text.
Import Relevance.

(** [Answer] *)
Record Answer : Type := {
  text : str;
  answerable : bool;
  citations : list EvidenceItem;
  conflict_flags : list (string * string)
}.

Inductive terminal : Type :=
| Answered
| Refused_NoEvidence
| Refused_UncitedOutput.

(** The generation request: the evidence snippets, each tagged with its
    citation marker (the source id), and the question. *)
Record Prompt : Type := {
  prompt_evidence : list (string * str);
  prompt_question : str
}.

(** What the generation service returns: the text, and for every claim
    the text asserts the citation markers attached to that claim. *)
Record Generated : Type := {
  gen_text : str;
  gen_claims : list (list string)
}.

(** Outcome of one query: a well-formed answer with its terminal state,
    or the pipeline error raised by a failed service call. *)
Inductive outcome : Type :=
| Returned (a : Answer) (t : terminal)
| GenerationServiceError.

(** ["answer": "Zu dieser Frage liegen keine Informationen vor."] *)
Definition refusal_answer : str :=
  of_string "Zu dieser Frage liegen keine Informationen vor.".

(** [if "liegt nicht vor" in answer.lower():] *)
Definition refusal_phrase : str := of_string "liegt nicht vor".

Definition refuses (answer : str) : bool := contains refusal_phrase (lower answer).

Definition refusal (flags : list (string * string)) : Answer :=
  {| text := refusal_answer; answerable := false; citations := [];
     conflict_flags := flags |}.

Definition build_prompt (question : str) (sources : list EvidenceItem) : Prompt :=
  {| prompt_evidence := map (fun s => (document_id s, text_snippet s)) sources;
     prompt_question := question |}.

(** A citation marker resolves to the evidence item with that id. *)
Definition resolve (sources : list EvidenceItem) (marker : string) : option EvidenceItem :=
  find (fun s => String.eqb (document_id s) marker) sources.

Definition resolve_all (sources : list EvidenceItem) (markers : list string)
    : list EvidenceItem :=
  flat_map (fun m => match resolve sources m with
                     | Some s => [s]
                     | None => []
                     end) markers.

(** A claim is cited when one of its markers resolves. *)
Definition cited (sources : list EvidenceItem) (claim : list string) : bool :=
  match resolve_all sources claim with
  | [] => false
  | _ :: _ => true
  end.


Section Pipeline.
(** The external generation service ([None]: the call failed) and the
    conflict heuristic, which the spec leaves as an extension point. *)
Variable complete : Prompt -> option Generated.
Variable detect_conflicts : list EvidenceItem -> list (string * string).

(** Modelled from the spec: post-validation of the generated text.
    The refusal phrase empties the citation list and leaves the text as
    it is ([relevant_sources = []]); otherwise every claim needs a
    marker that resolves and the answer needs at least one citation. *)
Definition post_validate (sources : list EvidenceItem)
    (flags : list (string * string)) (g : Generated) : Answer * terminal :=
  if refuses (gen_text g) then
    ({| text := gen_text g; answerable := false; citations := [];
        conflict_flags := flags |}, Refused_NoEvidence)
  else
    let used := resolve_all sources (concat (gen_claims g)) in
    if forallb (cited sources) (gen_claims g) && negb (Nat.eqb (length used) 0) then
      ({| text := gen_text g; answerable := true; citations := used;
          conflict_flags := flags |}, Answered)
    else (refusal flags, Refused_UncitedOutput).

(** Modelled from the spec: the state machine over one query, with the
    log of the calls made to the generation service.  It opens with the
    guard of the excerpt:
[[
if not sources:
    return {"answer": "Zu dieser Frage liegen keine Informationen vor.",
            "answerable": False}
]] *)
Definition ask (question : str) (sources : list EvidenceItem)
    : outcome * list Prompt :=
  match sources with
  | [] => (Returned (refusal []) Refused_NoEvidence, [])
  | _ :: _ =>
      let flags := detect_conflicts sources in
      let prompt := build_prompt question sources in
      match complete prompt with
      | None => (GenerationServiceError, [prompt])
      | Some g =>
          let '(a, t) := post_validate sources flags g in
          (Returned a t, [prompt])
      end
  end.
End Pipeline.

(** Sample data: one evidence item, and a generated text that carries
    the refusal phrase next to a claim without any marker. *)
Definition sample_evidence : EvidenceItem :=
  {| document_id := "FB-2026-001";
     text_snippet := of_string "Der Sprachassistent reagiert nicht mehr nach dem Update";
     fused_score := 1 # 61;
     metadata := [] |}.


Definition cited_generation : Generated :=
  {| gen_text := of_string "Der Sprachassistent reagiert nach dem Update nicht [FB-2026-001].";
     gen_claims := [["FB-2026-001"%string]] |}.

Definition uncited_generation : Generated :=
  {| gen_text := of_string "Das Display ist defekt.";
     gen_claims := [[]] |}.

End Composer.

(* ===================================================================== *)
(** ** Dashboard: the source-distribution bars                            *)
(* ===================================================================== *)

Module Dashboard.
Local Open Scope Q_scope.

(** A JavaScript number: a finite value, an infinity or NaN.  Finite
    values are exact rationals. *)
Inductive number : Type :=
| Finite (q : Q)
| PosInfinity
| NegInfinity
| NaN.

(** [interface FeedbackStats]: the payload of [/api/feedbacks/stats];
    JSON carries finite numbers only, and a field may be missing.  The
    later revision of the page names the map [by_source] and adds a
    [survey] bar; the width expression is the same. *)
Record FeedbackStats : Type := {
  total : option Q;
  by_source_type : option (gmap string Q)
}.

Definition is_zero (q : Q) : bool := Qeq_bool q 0.

(** [a / b] on finite operands. *)
Definition divide (a b : Q) : number :=
  if is_zero b then
    if is_zero a then NaN
    else if Qle_bool 0 a then PosInfinity else NegInfinity
  else Finite (a / b).

(** [x * 100] *)
Definition times100 (x : number) : number :=
  match x with
  | Finite q => Finite (q * 100)
  | other => other
  end.

(** [stats?.by_source_type?.voice ?? 0] *)
Definition count (stats : option FeedbackStats) (source : string) : Q :=
  match stats with
  | Some st =>
      match by_source_type st with
      | Some m => match m !! source with
                  | Some n => n
                  | None => 0
                  end
      | None => 0
      end
  | None => 0
  end.

(** [stats?.total || 1] *)
Definition divisor (stats : option FeedbackStats) : Q :=
  match stats with
  | Some st =>
      match total st with
      | Some t => if is_zero t then 1 else t
      | None => 1
      end
  | None => 1
  end.

(** [((stats?.by_source_type?.voice ?? 0) / (stats?.total || 1)) * 100] *)
Definition bar_width (stats : option FeedbackStats) (source : string) : number :=
  times100 (divide (count stats source) (divisor stats)).


End Dashboard.

(* ===================================================================== *)
(** ** Ingest: the PII preview table                                      *)
(* ===================================================================== *)

Module Ingest.
Import Text.

(** [interface PIIMatch] of the ingest page. *)
Record PIIMatch : Type := {
  type : str;
  text : str;
  start : nat;
  end_ : nat
}.

(** The "Anonymisiert zu" column: [[{match.type.toUpperCase()}]]. *)
Definition preview_tag (m : PIIMatch) : str :=
  of_string "[" ++ upper (type m) ++ of_string "]".

End Ingest.

(* ===================================================================== *)
(** ** RegexShape: what a pattern can and cannot match                    *)
(* ===================================================================== *)

Module RegexShape.
Import Text Regex.

(** An upper bound on the length of every match; [None] when a repetition
    is open-ended. *)
Fixpoint max_len (r : regex) : option nat :=
  match r with
  | Chr _ => Some 1
  | Rep _ _ hi => hi
  | WordB => Some 0
  | Cat r1 r2 =>
      match max_len r1, max_len r2 with
      | Some a, Some b => Some (a + b)
      | _, _ => None
      end
  | Or r1 r2 =>
      match max_len r1, max_len r2 with
      | Some a, Some b => Some (Nat.max a b)
      | _, _ => None
      end
  end.

(** Every character a match can contain. *)
Fixpoint alphabet (r : regex) : charset :=
  match r with
  | Chr cs => cs
  | Rep cs _ _ => cs
  | WordB => []
  | Cat r1 r2 => alphabet r1 ++ alphabet r2
  | Or r1 r2 => alphabet r1 ++ alphabet r2
  end.

(** The pattern begins, respectively ends, with [\b]. *)
Fixpoint opens_at_boundary (r : regex) : bool :=
  match r with
  | WordB => true
  | Cat r1 _ => opens_at_boundary r1
  | Or r1 r2 => opens_at_boundary r1 && opens_at_boundary r2
  | _ => false
  end.

Fixpoint closes_at_boundary (r : regex) : bool :=
  match r with
  | WordB => true
  | Cat _ r2 => closes_at_boundary r2
  | Or r1 r2 => closes_at_boundary r1 && closes_at_boundary r2
  | _ => false
  end.

(** [\b] holds between the character [p] and the text [s]. *)
Definition boundary (p : option ascii) (s : str) : bool :=
  xorb (is_word p) (is_word (head s)).

(** The character before the cursor after reading [w]. *)
Definition last_of (prev : option ascii) (w : str) : option ascii :=
  fold_left (fun _ c => Some c) w prev.

(** Every character of [cs] is in [bad]. *)
Definition subset (cs bad : charset) : bool :=
  forallb (fun n => implb (in_class cs (ascii_of_nat n)) (in_class bad (ascii_of_nat n)))
          (seq 0 256).

(** The pattern cannot match without reading a character of [bad]. *)
Fixpoint needs (bad : charset) (r : regex) : bool :=
  match r with
  | Chr cs => subset cs bad
  | Rep cs lo _ => (1 <=? lo) && subset cs bad
  | WordB => false
  | Cat r1 r2 => needs bad r1 || needs bad r2
  | Or r1 r2 => needs bad r1 && needs bad r2
  end.

(** Digits, the at sign and the ASCII capital letters. *)
Definition pii_marks : charset := [rng "0" "9"; one "@"; rng "A" "Z"].

(** [[A-HJ-NPR-Z0-9]] *)
Definition vin_alphabet : charset :=
  [rng "A" "H"; rng "J" "N"; one "P"; rng "R" "Z"; rng "0" "9"].

End RegexShape.

(* ===================================================================== *)
(** ** Tokenizer: the keyword side of the hybrid search                   *)
(* ===================================================================== *)

Module Tokenizer.
Import Text.

(** A finished word is emitted, an empty one is not: [str.split()] never
    returns an empty string. *)
Definition emit (cur : str) (rest : list str) : list str :=
  match cur with
  | [] => rest
  | _ :: _ => cur :: rest
  end.

(** [str.split()] with no separator: runs of whitespace separate the
    words, leading and trailing whitespace is dropped.  [cur] is the word
    read so far. *)
Fixpoint split_from (cur : str) (s : str) : list str :=
  match s with
  | [] => emit cur []
  | c :: s' =>
      if in_class space c then emit cur (split_from [] s')
      else split_from (cur ++ [c]) s'
  end.

Definition split (s : str) : list str := split_from [] s.

(** [tokenized_query = query.lower().split()] *)
Definition tokenize (query : str) : list str := split (lower query).

(** [" ".join(words)] *)
Fixpoint join (words : list str) : str :=
  match words with
  | [] => []
  | [w] => w
  | w :: ws => w ++ " "%char :: join ws
  end.

Definition not_space (c : ascii) : bool := negb (in_class space c).

End Tokenizer.

(* ===================================================================== *)
(** ** RagPost: what the chat shows as sources                            *)
(* ===================================================================== *)

Module RagPost.
Import Text Relevance.

(** [[
  if "liegt nicht vor" in answer.lower():
      relevant_sources = []
]] *)
Definition post_process (answer : str) (relevant : list EvidenceItem)
    : list EvidenceItem :=
  if Composer.refuses answer then [] else relevant.

(** The threshold followed by the post-processing step. *)
Definition shown_sources (answer : str) (sources : list EvidenceItem)
    : list EvidenceItem :=
  post_process answer (relevant_sources MIN_RELEVANCE_SCORE sources).

End RagPost.

(* ===================================================================== *)
(** ** Charts: sorted statistics on the dashboard and analytics pages     *)
(* ===================================================================== *)

Module Charts.
Import Text.
Local Open Scope Q_scope.

(** [Object.entries(stats.by_label)]: the keys of a record with their
    counts, in the order the engine enumerates them. *)
Definition entries : Type := list (str * Q).

(** [(a, b) => b[1] - a[1]] is not positive: [a] may stay before [b]. *)
Definition by_count_desc (a b : str * Q) : bool := Qle_bool (snd b) (snd a).

(** [.sort((a, b) => b[1] - a[1])]; [Array.prototype.sort] is stable. *)
Definition sort_desc (es : entries) : entries := Ordering.sort by_count_desc es.

(** [.sort(...).slice(0, n)]: the four top categories of the dashboard,
    the ten models and eight markets of the analytics charts. *)
Definition top (n : nat) (es : entries) : entries := firstn n (sort_desc es).

Definition rest (n : nat) (es : entries) : entries := skipn n (sort_desc es).


End Charts.

(* ===================================================================== *)
(** ** Feedbacks: the feedback list page                                  *)
(* ===================================================================== *)

Module Feedbacks.
Import Text.

(** [interface FeedbackItem] *)
Record FeedbackItem : Type := {
  id : str;
  text : str;
  label : str;
  source_type : str;
  language : str;
  timestamp : str;
  vehicle_model : str;
  market : str
}.

(** A string used as a condition: the empty string is falsy. *)
Definition truthy (s : str) : bool :=
  match s with
  | [] => false
  | _ :: _ => true
  end.

(** [string | null] used as a condition. *)
Definition chosen (f : option str) : option str :=
  match f with
  | Some (c :: s) => Some (c :: s)
  | _ => None
  end.

(** [[
  (fb) => fb.text.toLowerCase().includes(searchLower) ||
          fb.id.toLowerCase().includes(searchLower)
]] *)
Definition matches_search (search : str) (fb : FeedbackItem) : bool :=
  let searchLower := lower search in
  contains searchLower (lower (text fb)) || contains searchLower (lower (id fb)).

(** [if (filterType) filtered = filtered.filter((fb) => field(fb) === filterType)] *)
Definition filter_field (field : FeedbackItem -> str) (f : option str)
    (filtered : list FeedbackItem) : list FeedbackItem :=
  match chosen f with
  | Some v => List.filter (fun fb => bool_decide (field fb = v)) filtered
  | None => filtered
  end.

(** [filterData]: the value given to [setFilteredFeedbacks]. *)
Definition filterData (feedbacks : list FeedbackItem) (search : str)
    (filterType filterModel filterMarket : option str) : list FeedbackItem :=
  let filtered := feedbacks in
  let filtered :=
    if truthy search then List.filter (matches_search search) filtered else filtered in
  let filtered := filter_field source_type filterType filtered in
  let filtered := filter_field vehicle_model filterModel filtered in
  let filtered := filter_field market filterMarket filtered in
  filtered.

(** [searchParams.get(name)]: the first value given for the name. *)
Fixpoint get (name : str) (params : list (str * str)) : option str :=
  match params with
  | [] => None
  | (k, v) :: rest => if bool_decide (k = name) then Some v else get name rest
  end.

(** [useState(searchParams.get("search") || "")] *)
Definition initial_search (params : list (str * str)) : str :=
  match get (of_string "search") params with
  | Some v => v
  | None => []
  end.

Definition itemsPerPage : nat := 15.

(** [array.slice(from, to)] for indices that are not negative. *)
Definition slice {A : Type} (from to : nat) (l : list A) : list A :=
  firstn (to - from) (skipn from l).

(** [filteredFeedbacks.slice((page - 1) * itemsPerPage, page * itemsPerPage)]
    for the pages 1, 2, ... of the pagination control. *)
Definition paginatedFeedbacks (filtered : list FeedbackItem) (page : nat)
    : list FeedbackItem :=
  slice ((page - 1) * itemsPerPage) (page * itemsPerPage) filtered.

(** [Math.ceil(filteredFeedbacks.length / itemsPerPage)] *)
Definition totalPages (filtered : list FeedbackItem) : nat :=
  (length filtered + (itemsPerPage - 1)) / itemsPerPage.

End Feedbacks.

(* ===================================================================== *)
(** ** Problems: the problem cards of the dashboard                       *)
(* ===================================================================== *)

Module Problems.
Import Text Feedbacks.

(** [{ count: number; models: Set<string> }]; a [Set] keeps its elements
    in insertion order. *)
Record Problem : Type := {
  count : nat;
  models : list str
}.

(** [Record<string, ...>] filled with the keywords below: its entries are
    enumerated in insertion order. *)
Definition table : Type := list (str * Problem).

Definition keywords : list str :=
  map of_string
    ["Sprachassistent"; "Navigation"; "Bluetooth"; "Update"; "Touch"; "Display";
     "Klimaanlage"; "CarPlay"; "Android Auto"]%string.

(** [fb.text.toLowerCase().includes(kw.toLowerCase())] *)
Definition hit (kw : str) (fb : FeedbackItem) : bool :=
  contains (lower kw) (lower (text fb)).

(** [models.add(m)] *)
Definition set_add (m : str) (ms : list str) : list str :=
  if decide (m ∈ ms) then ms else ms ++ [m].

(** [[
  problemKeywords[kw].count++;
  if (fb.vehicle_model) problemKeywords[kw].models.add(fb.vehicle_model);
]] *)
Definition record_hit (model : str) (p : Problem) : Problem :=
  {| count := S (count p);
     models := if truthy model then set_add model (models p) else models p |}.

(** [{ count: 0, models: new Set() }] *)
Definition fresh : Problem := {| count := 0; models := [] |}.

(** The entry of [kw] is created at the end when missing, then updated in
    place. *)
Fixpoint bump (kw model : str) (tbl : table) : table :=
  match tbl with
  | [] => [(kw, record_hit model fresh)]
  | (k, p) :: rest =>
      if bool_decide (k = kw) then (k, record_hit model p) :: rest
      else (k, p) :: bump kw model rest
  end.

Definition note (fb : FeedbackItem) (tbl : table) (kw : str) : table :=
  if hit kw fb then bump kw (vehicle_model fb) tbl else tbl.

(** [keywords.forEach((kw) => ...)] for one feedback. *)
Definition scan_feedback (tbl : table) (fb : FeedbackItem) : table :=
  fold_left (note fb) keywords tbl.

(** [feedbacks.forEach((fb) => ...)] *)
Definition problemKeywords (feedbacks : list FeedbackItem) : table :=
  fold_left scan_feedback feedbacks [].

(** [(a, b) => b[1].count - a[1].count] is not positive. *)
Definition by_problem_count (a b : str * Problem) : bool :=
  count (snd b) <=? count (snd a).

(** [[
  Object.entries(problemKeywords)
    .filter(([, data]) => data.count > 0)
    .sort((a, b) => b[1].count - a[1].count)
    .slice(0, 4)
]] *)
Definition topProblems (feedbacks : list FeedbackItem) : table :=
  firstn 4
    (Ordering.sort by_problem_count
       (List.filter (fun e => 0 <? count (snd e)) (problemKeywords feedbacks))).

(** [array.join(', ')] *)
Fixpoint join_comma (ws : list str) : str :=
  match ws with
  | [] => []
  | [w] => w
  | w :: rest => w ++ of_string ", " ++ join_comma rest
  end.

(** [[...data.models].slice(0, 2).join(', ') || 'Alle Modelle'] *)
Definition card_models (p : Problem) : str :=
  let joined := join_comma (firstn 2 (models p)) in
  if truthy joined then joined else of_string "Alle Modelle".

(** What the table holds for a keyword, [fresh] when it has no entry. *)
Fixpoint entry (kw : str) (tbl : table) : option Problem :=
  match tbl with
  | [] => None
  | (k, p) :: rest => if bool_decide (k = kw) then Some p else entry kw rest
  end.

(** Every entry of the table has been hit at least once. *)
Definition live (tbl : table) : Prop :=
  forall kw p, entry kw tbl = Some p -> 1 <= count p.

(** The entry of [kw] alone, updated feedback by feedback. *)
Definition tally (kw : str) (p : Problem) (feedbacks : list FeedbackItem) : Problem :=
  fold_left (fun p fb => if hit kw fb then record_hit (vehicle_model fb) p else p)
            feedbacks p.

(** The feedbacks a card of [kw] stands for. *)
Definition hits (kw : str) (feedbacks : list FeedbackItem) : list FeedbackItem :=
  List.filter (hit kw) feedbacks.

End Problems.

(* ===================================================================== *)
(** ** Upload: the upload handler and the preview of the ingest page      *)
(* ===================================================================== *)

Module Upload.
Import Text.

(** What [fetch] and [response.json()] gave: the request failed; the
    server answered with an error status or a body that cannot be read;
    or it answered with [pii_detected] and [processed] (either may be
    missing).  The [stats] of the reply are passed on unchanged and are
    left out. *)
Inductive response : Type :=
| NetworkError
| NotOk
| Ok (pii_detected : option (list Ingest.PIIMatch)) (processed : option nat).

(** [{ success: boolean; processed: number }] *)
Record Result : Type := {
  success : bool;
  processed : nat
}.

(** The state of the page; [file] is [true] when a file is chosen. *)
Record State : Type := {
  file : bool;
  uploading : bool;
  progress : nat;
  piiMatches : list Ingest.PIIMatch;
  result : option Result
}.

(** [[
  setProgress((prev) => {
      if (prev >= 90) return 90;
      return prev + 10;
  });
]] *)
Definition tick (prev : nat) : nat :=
  if 90 <=? prev then 90 else prev + 10.

(** [data.pii_detected && data.pii_detected.length > 0] *)
Definition detected (pii_detected : option (list Ingest.PIIMatch))
    : list Ingest.PIIMatch :=
  match pii_detected with
  | Some (m :: ms) => m :: ms
  | _ => []
  end.

(** [data.processed || 0] *)
Definition or_zero (n : option nat) : nat :=
  match n with
  | Some k => k
  | None => 0
  end.

(** [handleUpload], with the number of timer ticks that fire while the
    request is pending. *)
Definition handleUpload (st : State) (ticks : nat) (r : response) : State :=
  if negb (file st) then st
  else
    let waiting := Nat.iter ticks tick 0 in
    match r with
    | Ok pii_detected n =>
        {| file := file st; uploading := false; progress := 100;
           piiMatches := detected pii_detected;
           result := Some {| success := true; processed := or_zero n |} |}
    | NotOk =>
        {| file := file st; uploading := false; progress := 100;
           piiMatches := [];
           result := Some {| success := false; processed := 0 |} |}
    | NetworkError =>
        {| file := file st; uploading := false; progress := waiting;
           piiMatches := [];
           result := Some {| success := false; processed := 0 |} |}
    end.

(** [piiMatches.slice(0, 20)]: the rows of the preview table. *)
Definition preview_rows (ms : list Ingest.PIIMatch) : list Ingest.PIIMatch :=
  firstn 20 ms.

(** [piiMatches.length > 20 && ... {piiMatches.length - 20} weitere]: the
    number named under the table, when the line is shown. *)
Definition remainder (ms : list Ingest.PIIMatch) : option nat :=
  if 20 <? length ms then Some (length ms - 20) else None.

End Upload.

(* ===================================================================== *)
(** ** Chat: the chat page                                                *)
(* ===================================================================== *)

Module Chat.
Import Text.

(** [interface Source] *)
Record Source : Type := {
  source_id : str;
  source_text : str;
  source_score : Q
}.

Inductive role : Type := user | assistant.

(** [interface Message]; [sources] and [answerable] are optional. *)
Record Message : Type := {
  msg_role : role;
  content : str;
  sources : option (list Source);
  answerable : option bool
}.

(** [interface HistoryItem] *)
Record HistoryItem : Type := {
  question : str;
  answer : str;
  timestamp : str;
  sources_count : nat;
  history_sources : list Source
}.

(** The body of the reply to [POST /api/chat/]. *)
Record Reply : Type := {
  reply_answer : str;
  reply_sources : option (list Source);
  reply_answerable : option bool
}.

(** The outcome of a request: a parsed body, or a failure. *)
Inductive fetched (A : Type) : Type :=
| Fetched (data : A)
| Failed.
Arguments Fetched {A} data.
Arguments Failed {A}.

(** The state of the page. *)
Record State : Type := {
  messages : list Message;
  input : str;
  loading : bool;
  history : list HistoryItem;
  selectedHistoryIndex : option nat
}.

(** The requests a handler sends. *)
Inductive request : Type :=
| PostChat (question : str)
| GetHistory
| DeleteHistory.

(** White space for [String.prototype.trim], below U+0100: TAB..CR,
    SPACE and NBSP. *)
Definition js_space : charset := [(9, 13); (32, 32); (160, 160)].

(** [!input.trim()] *)
Definition blank (s : str) : bool := forallb (in_class js_space) s.

(** [{ role: "user", content: question }] *)
Definition userMessage (question : str) : Message :=
  {| msg_role := user; content := question; sources := None; answerable := None |}.

(** The assistant message built from the reply. *)
Definition assistantMessage (data : Reply) : Message :=
  {| msg_role := assistant; content := reply_answer data;
     sources := reply_sources data; answerable := reply_answerable data |}.

(** The assistant message of a history item: [answerable: true]. *)
Definition historyMessage (item : HistoryItem) : Message :=
  {| msg_role := assistant; content := answer item;
     sources := Some (history_sources item); answerable := Some true |}.

(** The assistant message of the [catch] branch. *)
Definition errorMessage : Message :=
  {| msg_role := assistant;
     content := of_string "Fehler bei der Verbindung zum Backend.";
     sources := None; answerable := Some false |}.

(** [loadHistoryItem(item, index)] *)
Definition loadHistoryItem (st : State) (item : HistoryItem) (index : nat) : State :=
  {| messages := [userMessage (question item); historyMessage item];
     input := input st; loading := loading st; history := history st;
     selectedHistoryIndex := Some index |}.

(** [fetchHistory].  [seen] is the [messages] value of the render whose
    closure is running: the test [messages.length === 0] reads that
    value, not the state being updated. *)
Definition fetchHistory (seen : list Message) (st : State)
    (r : fetched (list HistoryItem)) : State :=
  match r with
  | Fetched data =>
      let st := {| messages := messages st; input := input st; loading := loading st;
                   history := data; selectedHistoryIndex := selectedHistoryIndex st |} in
      match data, seen with
      | item :: _, [] => loadHistoryItem st item 0
      | _, _ => st
      end
  | Failed => st
  end.

(** [setMessages((prev) => [...prev, m])] *)
Definition push (m : Message) (st : State) : State :=
  {| messages := messages st ++ [m]; input := input st; loading := loading st;
     history := history st; selectedHistoryIndex := selectedHistoryIndex st |}.

(** [handleSubmit]: the state after the handler has run to its end
    without another event in between, and the requests it sent. *)
Definition handleSubmit (st : State) (chat : fetched Reply)
    (hist : fetched (list HistoryItem)) : State * list request :=
  if blank (input st) || loading st then (st, [])
  else
    let seen := messages st in
    let question := input st in
    let st := push (userMessage question) st in
    let st := {| messages := messages st; input := []; loading := true;
                 history := history st;
                 selectedHistoryIndex := selectedHistoryIndex st |} in
    let '(st, sent) :=
      match chat with
      | Fetched data =>
          let st := push (assistantMessage data) st in
          let st := fetchHistory seen st hist in
          ({| messages := messages st; input := input st; loading := loading st;
              history := history st; selectedHistoryIndex := Some 0 |},
           [PostChat question; GetHistory])
      | Failed => (push errorMessage st, [PostChat question])
      end in
    ({| messages := messages st; input := input st; loading := false;
        history := history st; selectedHistoryIndex := selectedHistoryIndex st |},
     sent).

(** [clearHistory]: the state is reset unless the request fails. *)
Definition clearHistory (st : State) (r : fetched unit) : State * list request :=
  match r with
  | Fetched _ =>
      ({| messages := []; input := input st; loading := loading st; history := [];
          selectedHistoryIndex := None |}, [DeleteHistory])
  | Failed => (st, [DeleteHistory])
  end.

(** [startNewChat] *)
Definition startNewChat (st : State) : State :=
  {| messages := []; input := []; loading := loading st; history := history st;
     selectedHistoryIndex := None |}.

(** [message.answerable === false]: the warning under a message. *)
Definition warns (m : Message) : bool :=
  match answerable m with
  | Some false => true
  | _ => false
  end.

(** A fresh chat with a question typed in, a reply that reports no
    evidence, and the history item the backend stores for it. *)
Definition fresh_chat : State :=
  {| messages := []; input := of_string "Gibt es Probleme mit dem Radio?";
     loading := false; history := []; selectedHistoryIndex := None |}.

Definition no_evidence_reply : Reply :=
  {| reply_answer := of_string "Zu dieser Frage liegen keine Informationen vor.";
     reply_sources := Some []; reply_answerable := Some false |}.

Definition no_evidence_item : HistoryItem :=
  {| question := of_string "Gibt es Probleme mit dem Radio?";
     answer := of_string "Zu dieser Frage liegen keine Informationen vor.";
     timestamp := []; sources_count := 0; history_sources := [] |}.

End Chat.

(* ===================================================================== *)
(** ** Evaluation: the pipeline comparison of the evaluation page         *)
(* ===================================================================== *)

Module Evaluation.
Local Open Scope Q_scope.

(** [{ precision: number; recall: number; mrr: number }] *)
Record Metrics : Type := {
  precision : Q;
  recall : Q;
  mrr : Q
}.

(** [interface PipelineData] *)
Record PipelineData : Type := {
  vector : Metrics;
  hybrid : Metrics;
  rerank : Metrics
}.

(** [(metrics.mrr * 0.5) + (metrics.precision * 0.3) + (metrics.recall * 0.2)] *)
Definition calcWeightedScore (metrics : Metrics) : Q :=
  (mrr metrics * (5 # 10)) + (precision metrics * (3 # 10)) + (recall metrics * (2 # 10)).



(** One entry of [scores]; the display name is left out. *)
Record Entry : Type := {
  key : string;
  score : Q
}.

(** [(a, b) => b.score - a.score] is not positive. *)
Definition by_score_desc (a b : Entry) : bool := Qle_bool (score b) (score a).

Definition candidates (data : PipelineData) : list Entry :=
  [ {| key := "vector"; score := calcWeightedScore (vector data) |};
    {| key := "hybrid"; score := calcWeightedScore (hybrid data) |};
    {| key := "rerank"; score := calcWeightedScore (rerank data) |} ].

(** [[...].sort((a, b) => b.score - a.score)] *)
Definition scores (data : PipelineData) : list Entry :=
  Ordering.sort by_score_desc (candidates data).

(** [scores[0]] *)
Definition winner (data : PipelineData) : option Entry := hd_error (scores data).

(** [[
  prev.includes(cat) ? prev.filter(c => c !== cat) : [...prev, cat]
]] *)
Definition toggleCategory (cat : string) (prev : list string) : list string :=
  if existsb (String.eqb cat) prev
  then List.filter (fun c => negb (String.eqb c cat)) prev
  else prev ++ [cat].

End Evaluation.

(* ===================================================================== *)
(** ** Export: the export page                                            *)
(* ===================================================================== *)

Module ExportPage.
Import Text Feedbacks.

(** [selected.includes(value)] *)
Definition includes (value : str) (selected : list str) : bool :=
  existsb (fun s => bool_decide (s = value)) selected.

(** [[
  if (selected.length > 0) {
      filtered = filtered.filter((fb) => selected.includes(field(fb)));
  }
]] *)
Definition narrow (field : FeedbackItem -> str) (selected : list str)
    (filtered : list FeedbackItem) : list FeedbackItem :=
  match selected with
  | [] => filtered
  | _ :: _ => List.filter (fun fb => includes (field fb) selected) filtered
  end.

(** The [filtered] list of [generateExport]. *)
Definition filtered (feedbacks : list FeedbackItem)
    (selectedLabels selectedModels selectedMarkets : list str) : list FeedbackItem :=
  let filtered := feedbacks in
  let filtered := narrow label selectedLabels filtered in
  let filtered := narrow vehicle_model selectedModels filtered in
  let filtered := narrow market selectedMarkets filtered in
  filtered.

Definition nonempty (selected : list str) : bool :=
  match selected with
  | [] => false
  | _ :: _ => true
  end.

(** The predicate of [filteredCount]. *)
Definition counted (selectedLabels selectedModels selectedMarkets : list str)
    (fb : FeedbackItem) : bool :=
  if nonempty selectedLabels && negb (includes (label fb) selectedLabels) then false
  else if nonempty selectedModels && negb (includes (vehicle_model fb) selectedModels)
  then false
  else if nonempty selectedMarkets && negb (includes (market fb) selectedMarkets)
  then false
  else true.

(** [filteredCount] *)
Definition filteredCount (feedbacks : list FeedbackItem)
    (selectedLabels selectedModels selectedMarkets : list str) : nat :=
  length (List.filter (counted selectedLabels selectedModels selectedMarkets) feedbacks).

(** [[...new Set(values)]]: the distinct values in order of first
    appearance. *)
Definition distinct (values : list str) : list str :=
  fold_left (fun seen v => Problems.set_add v seen) values [].

(** [[...new Set(feedbacks.map(field).filter(Boolean))]]: [uniqueLabels],
    [uniqueModels] and [uniqueMarkets]. *)
Definition unique (field : FeedbackItem -> str) (feedbacks : list FeedbackItem)
    : list str :=
  distinct (List.filter truthy (map field feedbacks)).

(** [value || fallback] *)
Definition or_else (fallback : string) (value : str) : str :=
  if truthy value then value else of_string fallback.

(** The names every object inherits from [Object.prototype]. *)
Definition inherited : list str :=
  map of_string
    ["constructor"; "hasOwnProperty"; "isPrototypeOf"; "propertyIsEnumerable";
     "toLocaleString"; "toString"; "valueOf"; "__proto__"; "__defineGetter__";
     "__defineSetter__"; "__lookupGetter__"; "__lookupSetter__"]%string.

(** A key that a plain object keeps as its own property in insertion
    order: not an inherited name and not a number. *)
Definition plain (k : str) : bool :=
  negb (bool_decide (k ∈ inherited)) &&
  negb (truthy k && forallb (in_class digit) k).

(** [acc[key] = (acc[key] || 0) + 1] *)
Fixpoint incr (k : str) (acc : list (str * nat)) : list (str * nat) :=
  match acc with
  | [] => [(k, 1)]
  | (k', n) :: rest =>
      if bool_decide (k' = k) then (k', n + 1) :: rest else (k', n) :: incr k rest
  end.

(** [Object.entries(filtered.reduce((acc, fb) => { ... }, {}))] for keys
    that are [plain]; other keys are outside this model. *)
Definition tally (keys : list str) : option (list (str * nat)) :=
  if forallb plain keys then Some (fold_left (fun acc k => incr k acc) keys [])
  else None.

(** [(a, b) => b[1] - a[1]] is not positive. *)
Definition by_number_desc (a b : str * nat) : bool := snd b <=? snd a.

(** [byLabel], [byModel] and [byMarket] of a ticket:
    [Object.entries(...).sort((a, b) => b[1] - a[1])]. *)
Definition grouped (key : FeedbackItem -> str) (filtered : list FeedbackItem)
    : option (list (str * nat)) :=
  option_map (Ordering.sort by_number_desc) (tally (map key filtered)).

Definition byLabel : list FeedbackItem -> option (list (str * nat)) :=
  grouped (fun fb => or_else "UNKNOWN" (label fb)).
Definition byModel : list FeedbackItem -> option (list (str * nat)) :=
  grouped (fun fb => or_else "unknown" (vehicle_model fb)).
Definition byMarket : list FeedbackItem -> option (list (str * nat)) :=
  grouped (fun fb => or_else "unknown" (market fb)).

(** The double quote character. *)
Definition quote : ascii := ascii_of_nat 34.

(** The [replace] call on [fb.text] in a CSV row: every double quote is
    doubled. *)
Definition escape (text : str) : str :=
  flat_map (fun c => if Ascii.eqb c quote then [quote; quote] else [c]) text.

(** [acc[k] || 0] *)
Fixpoint stored (k : str) (acc : list (str * nat)) : nat :=
  match acc with
  | [] => 0
  | (k', n) :: rest => if bool_decide (k' = k) then n else stored k rest
  end.

(** The number of occurrences of [k]. *)
Definition occurrences (k : str) (keys : list str) : nat :=
  length (List.filter (fun k' => bool_decide (k' = k)) keys).

End ExportPage.

(* ===================================================================== *)
(** ** Settings: the settings page                                        *)
(* ===================================================================== *)

Module Settings.
Local Open Scope Q_scope.

(** [interface Settings] *)
Record Settings : Type := {
  temperature : Q;
  citation_required : bool;
  unanswerable_guard : bool;
  confliction_detection : bool
}.

(** A JSON object with these fields, each of which may be missing or
    [null]. *)
Record Payload : Type := {
  p_temperature : option Q;
  p_citation_required : option bool;
  p_unanswerable_guard : option bool;
  p_confliction_detection : option bool
}.

(** [value ?? fallback] *)
Definition nullish {A : Type} (value : option A) (fallback : A) : A :=
  match value with
  | Some v => v
  | None => fallback
  end.

(** The initial state of the page. *)
Definition defaults : Settings :=
  {| temperature := 3 # 10; citation_required := true;
     unanswerable_guard := true; confliction_detection := true |}.

(** [fetchSettings]: the new settings; [None] stands for a request that
    failed or was answered with an error status. *)
Definition fetchSettings (settings : Settings) (r : option Payload) : Settings :=
  match r with
  | Some data =>
      {| temperature := nullish (p_temperature data) (3 # 10);
         citation_required := nullish (p_citation_required data) true;
         unanswerable_guard := nullish (p_unanswerable_guard data) true;
         confliction_detection := nullish (p_confliction_detection data) true |}
  | None => settings
  end.

(** [body: JSON.stringify(settings)] of [handleSave] *)
Definition body (settings : Settings) : Payload :=
  {| p_temperature := Some (temperature settings);
     p_citation_required := Some (citation_required settings);
     p_unanswerable_guard := Some (unanswerable_guard settings);
     p_confliction_detection := Some (confliction_detection settings) |}.

End Settings.

(* ===================================================================== *)
(** ** Csv: the CSV form of a ticket                                      *)
(* ===================================================================== *)

Module Csv.
Import Text Feedbacks ExportPage.

(** A value between double quotes. *)
Definition quoted (value : str) : str := quote :: value ++ [quote].

(** [array.join(sep)] *)
Fixpoint join (sep : str) (parts : list str) : str :=
  match parts with
  | [] => []
  | [p] => p
  | p :: rest => p ++ sep ++ join sep rest
  end.

(** One row: the six fields between double quotes, separated by commas;
    only the text has its double quotes doubled. *)
Definition row (fb : FeedbackItem) : str :=
  join (of_string ",")
    [quoted (id fb); quoted (escape (text fb)); quoted (label fb);
     quoted (vehicle_model fb); quoted (market fb); quoted (source_type fb)].

Definition header : str := of_string "id,text,label,vehicle_model,market,source_type".

Definition newline : str := [ascii_of_nat 10].

(** [[header, ...rows].join(newline)] over [filtered.slice(0, 1000)] *)
Definition content (filtered : list FeedbackItem) : str :=
  join newline (header :: map row (firstn 1000 filtered)).

(** The consumer's side, as RFC 4180 reads a quoted field: after the
    opening quote, a doubled quote stands for one quote and a single
    quote ends the field.  The result is the value and what follows the
    closing quote. *)
Fixpoint read_quoted (s : str) (value : str) : option (str * str) :=
  match s with
  | [] => None
  | c :: s' =>
      if Ascii.eqb c quote then
        match s' with
        | c' :: s'' => if Ascii.eqb c' quote then read_quoted s'' (value ++ [quote])
                       else Some (value, s')
        | [] => Some (value, [])
        end
      else read_quoted s' (value ++ [c])
  end.

(** [n] quoted fields separated by commas, to the end of the input. *)
Fixpoint read_fields (n : nat) (s : str) : option (list str) :=
  match n, s with
  | S n', c :: s1 =>
      if Ascii.eqb c quote then
        match read_quoted s1 [] with
        | Some (value, []) =>
            match n' with
            | 0 => Some [value]
            | S _ => None
            end
        | Some (value, c' :: s2) =>
            if Ascii.eqb c' ","%char then
              option_map (cons value) (read_fields n' s2)
            else None
        | None => None
        end
      else None
  | _, _ => None
  end.

Definition quote_free (value : str) : bool :=
  forallb (fun c => negb (Ascii.eqb c quote)) value.

End Csv.

(* ===================================================================== *)
(** * Properties                                                          *)
(* ===================================================================== *)

(** ** The anonymizer on concrete texts *)

Module PIIScenarios.
Import Text Regex PII.

Example scenario_matches :
  map (fun m => (pm_kind m, pm_start m, pm_end m)) (snd (anonymize scenario))
  = [(Email, 9, 29); (PhoneDe, 35, 51); (PlateDe, 53, 62)].
Proof. vm_compute. reflexivity. Qed.

Example scenario_text :
  anonymized_text scenario
  = of_string "Kontakt: [EMAIL], Tel [TELEFON], [KENNZEICHEN]".
Proof. vm_compute. reflexivity. Qed.

(** C8: the scenario text anonymizes to a text that contains the three
    tags and none of the three original values. *)
Theorem scenario_anonymized :
  let out := anonymized_text scenario in
  contains (of_string "[EMAIL]") out = true /\
  contains (of_string "[TELEFON]") out = true /\
  contains (of_string "[KENNZEICHEN]") out = true /\
  contains (of_string "max.mustermann@vw.de") out = false /\
  contains (of_string "0049 151 2345678") out = false /\
  contains (of_string "B-AB 1234") out = false.
Proof. vm_compute. repeat split; reflexivity. Qed.

Example overlap_candidates :
  map (fun m => (pm_kind m, pm_start m, pm_end m)) (detect overlap_text)
  = [(Email, 0, 6); (PlateDe, 4, 13)].
Proof. vm_compute. reflexivity. Qed.

Example overlap_output :
  anonymized_text overlap_text = of_string "[EMAIL]-AB 123".
Proof. vm_compute. reflexivity. Qed.


(** Without any overlap between candidates the same happens next to a
    date: the plate pattern finds no word boundary inside [12341], the
    date pattern takes [41.1.2026], and the bracket of the tag then ends
    the plate [B-AB 123]. *)
Example adjacent_candidates :
  map (fun m => (pm_kind m, pm_start m, pm_end m)) (detect adjacent_text)
  = [(Date, 8, 17)].
Proof. vm_compute. reflexivity. Qed.

Example adjacent_output :
  anonymized_text adjacent_text = of_string "B-AB 123[DATUM]" /\
  has_pii (anonymized_text adjacent_text) = true.
Proof. vm_compute. split; reflexivity. Qed.

(** The preview column of the ingest page derives the tag from the type
    key; that is the tag of the pattern table for [email] and [vin], not
    for [phone_de] and [plate_de]. *)
Example preview_tag_email :
  Ingest.preview_tag
    {| Ingest.type := of_string "email"; Ingest.text := of_string "max.mustermann@vw.de";
       Ingest.start := 9; Ingest.end_ := 29 |} = of_string "[EMAIL]".
Proof. vm_compute. reflexivity. Qed.

Example preview_tag_phone :
  Ingest.preview_tag
    {| Ingest.type := of_string "phone_de"; Ingest.text := of_string "0049 151 2345678";
       Ingest.start := 35; Ingest.end_ := 51 |} = of_string "[PHONE_DE]".
Proof. vm_compute. reflexivity. Qed.

End PIIScenarios.

(** ** Insertion sort *)

Module OrderingFacts.
Import Ordering.

Section Sort.
Context {A : Type} (leb : A -> A -> bool).

Local Abbreviation le := (holds leb).

Lemma insert_perm (x : A) (l : list A) : Permutation (insert leb x l) (x :: l).
Proof.
  induction l as [|y l IH]; simpl.
  - reflexivity.
  - destruct (leb x y).
    + reflexivity.
    + rewrite IH. apply perm_swap.
Qed.

Lemma sort_perm (l : list A) : Permutation (sort leb l) l.
Proof.
  induction l as [|x l IH]; simpl.
  - reflexivity.
  - rewrite insert_perm. now constructor.
Qed.

Hypothesis leb_total : forall a b, leb a b = true \/ leb b a = true.

Lemma insert_hdrel (a x : A) (l : list A) :
  le a x -> HdRel le a l -> HdRel le a (insert leb x l).
Proof.
  intros Hax Hal. destruct l as [|y l]; simpl.
  - now constructor.
  - destruct (leb x y); constructor; auto.
    now inversion Hal.
Qed.

Lemma insert_sorted (x : A) (l : list A) :
  Sorted le l -> Sorted le (insert leb x l).
Proof.
  induction 1 as [|y l Hs IH Hhd]; simpl.
  - repeat constructor.
  - destruct (leb x y) eqn:E.
    + constructor; [now constructor | now constructor].
    + constructor; [exact IH |].
      apply insert_hdrel; [| exact Hhd].
      destruct (leb_total x y) as [H | H]; [congruence | exact H].
Qed.

Lemma sort_sorted (l : list A) : Sorted le (sort leb l).
Proof.
  induction l as [|x l IH]; simpl.
  - constructor.
  - now apply insert_sorted.
Qed.

Hypothesis leb_trans : forall a b c, le a b -> le b c -> le a c.

Lemma sort_strongly_sorted (l : list A) : StronglySorted le (sort leb l).
Proof.
  apply Sorted_StronglySorted.
  - intros a b c. apply leb_trans.
  - apply sort_sorted.
Qed.


End Sort.
End OrderingFacts.

(** ** The anonymizer on every text *)

Module PIIFacts.
Import Text Regex PII.

(** A match consumes at least [min_len] characters before the rest of the
    pattern runs. *)
Lemma rep_min (cs : charset) (k : cont) (res : nat) (s : str) :
  forall lo hi prev n,
    rep cs lo hi k prev s n = Some res ->
    exists p s' n', n + lo <= n' /\ k p s' n' = Some res.
Proof.
  induction s as [|c s IH]; intros lo hi prev n H; simpl in H.
  - destruct lo; [| discriminate]. exists prev, [], n. split; [lia | exact H].
  - destruct (may_repeat hi && in_class cs c).
    + destruct (rep cs (pred lo) (dec hi) k (Some c) s (S n)) as [r|] eqn:E.
      * inversion H; subst r. apply IH in E as (p & s' & n' & Hn & Hk).
        exists p, s', n'. split; [lia | exact Hk].
      * destruct lo; [| discriminate].
        exists prev, (c :: s), n. split; [lia | exact H].
    + destruct lo; [| discriminate].
      exists prev, (c :: s), n. split; [lia | exact H].
Qed.

Lemma run_min (r : regex) (res : nat) :
  forall k prev s n,
    run r k prev s n = Some res ->
    exists p s' n', n + min_len r <= n' /\ k p s' n' = Some res.
Proof.
  induction r as [cs | cs lo hi | | r1 IH1 r2 IH2 | r1 IH1 r2 IH2];
    intros k prev s n H; simpl in *.
  - destruct s as [|c s]; [discriminate |].
    destruct (in_class cs c); [| discriminate].
    exists (Some c), s, (S n). split; [lia | exact H].
  - eapply rep_min. exact H.
  - destruct (xorb (is_word prev) (is_word (head s))); [| discriminate].
    exists prev, s, n. split; [lia | exact H].
  - apply IH1 in H as (p1 & s1 & n1 & Hn1 & H).
    apply IH2 in H as (p2 & s2 & n2 & Hn2 & H).
    exists p2, s2, n2. split; [lia | exact H].
  - destruct (run r1 k prev s n) as [x|] eqn:E.
    + inversion H; subst x. apply IH1 in E as (p & s' & n' & Hn & Hk).
      exists p, s', n'. split; [lia | exact Hk].
    + apply IH2 in H as (p & s' & n' & Hn & Hk).
      exists p, s', n'. split; [lia | exact Hk].
Qed.

Lemma match_at_min (r : regex) (prev : option ascii) (s : str) (len : nat) :
  match_at r prev s = Some len -> min_len r <= len.
Proof.
  unfold match_at. intros H.
  apply run_min in H as (p & s' & n' & Hn & Hk).
  inversion Hk; subst. lia.
Qed.

(** No registered pattern matches the empty string, so [finditer] loses
    nothing by leaving empty matches out. *)
Lemma patterns_nonempty (d : detector) (prev : option ascii) (s : str) (len : nat) :
  In d patterns -> match_at (det_pattern d) prev s = Some len -> 1 <= len.
Proof.
  intros Hd H. apply match_at_min in H.
  assert (Hmin : 3 <= min_len (det_pattern d)).
  { unfold patterns in Hd. simpl in Hd.
    repeat (destruct Hd as [<- | Hd]; [vm_compute; lia |]). contradiction. }
  lia.
Qed.













End PIIFacts.

(** ** The pseudonym *)

Module PseudonymFacts.
Import Text PII.







Example hash_of_email :
  _hash service (of_string "max.mustermann@vw.de") = of_string "c2a791e0d0daaa1b".
Proof. vm_compute. reflexivity. Qed.

Example sha256_abc :
  Sha256.hexdigest (encode (of_string "abc"))
  = of_string "ba7816bf8f01cfea414140de5dae2223b00361a396177a9cb410ff61f20015ad".
Proof. vm_compute. reflexivity. Qed.


End PseudonymFacts.

(** ** The relevance filter *)

Module RelevanceFacts.
Import Relevance.
Local Open Scope Q_scope.

Lemma relevant_sources_above (min_score : Q) (sources : list EvidenceItem) :
  Forall (fun s => min_score <= fused_score s) (relevant_sources min_score sources).
Proof.
  unfold relevant_sources. apply List.Forall_forall. intros s Hs.
  apply List.filter_In in Hs as [_ Hs]. now apply Qle_bool_iff.
Qed.

Lemma relevant_sources_none (min_score : Q) (sources : list EvidenceItem) :
  Forall (fun s => fused_score s < min_score) sources ->
  relevant_sources min_score sources = [].
Proof.
  unfold relevant_sources. induction 1 as [|s l Hs _ IH]; simpl.
  - reflexivity.
  - destruct (Qle_bool min_score (fused_score s)) eqn:E.
    + apply Qle_bool_iff in E. apply Qlt_not_le in Hs. contradiction.
    + exact IH.
Qed.

Lemma relevant_sources_sublist (min_score : Q) (sources : list EvidenceItem) :
  sublist (relevant_sources min_score sources) sources.
Proof.
  unfold relevant_sources. induction sources as [|s l IH]; simpl.
  - constructor.
  - destruct (Qle_bool min_score (fused_score s)); now constructor.
Qed.

(** C7: the filter returns no candidate below [min_score] and at most
    [max_results] items, all taken in order from its input; when nothing
    reaches the threshold the result is the empty list, an ordinary
    value. *)
Theorem filter_threshold_and_limit (fused_candidates : list EvidenceItem)
    (min_score : Q) (max_results : nat) :
  let evidence := Relevance.filter fused_candidates min_score max_results in
  Forall (fun e => min_score <= fused_score e) evidence /\
  Forall (fun e => ~ fused_score e < min_score) evidence /\
  (length evidence <= max_results)%nat /\
  sublist evidence fused_candidates /\
  (Forall (fun s => fused_score s < min_score) fused_candidates -> evidence = []).
Proof.
  cbv zeta. unfold Relevance.filter.
  assert (Habove : Forall (fun e => min_score <= fused_score e)
            (firstn max_results (relevant_sources min_score fused_candidates)))
    by (apply Forall_take, relevant_sources_above).
  repeat split.
  - exact Habove.
  - eapply List.Forall_impl; [| exact Habove].
    intros e He. now apply Qle_not_lt.
  - rewrite length_take. lia.
  - etransitivity; [apply sublist_take | apply relevant_sources_sublist].
  - intros H. rewrite relevant_sources_none by exact H.
    now destruct max_results.
Qed.

Lemma filter_threshold_and_limit_witness :
  let low := {| document_id := "FB-2026-001"; text_snippet := [];
                fused_score := 1 # 100; metadata := [] |} in
  Forall (fun s => fused_score s < MIN_RELEVANCE_SCORE) [low] /\
  Relevance.filter [low] MIN_RELEVANCE_SCORE 5 = [].
Proof.
  split.
  - repeat constructor.
  - apply (filter_threshold_and_limit _ MIN_RELEVANCE_SCORE 5).
    repeat constructor.
Defined.

End RelevanceFacts.

(** ** The answer composer *)

Module ComposerFacts.
Import Text Relevance Composer.


(** C2: when the relevance filter leaves no evidence, the composer
    returns the fixed refusal, not answerable and without citations, and
    the log of calls to the generation service is empty. *)
Theorem empty_evidence_short_circuit
    (complete : Prompt -> option Generated)
    (detect_conflicts : list EvidenceItem -> list (string * string))
    (question : str) (fused_candidates : list EvidenceItem)
    (min_score : Q) (max_results : nat) :
  Relevance.filter fused_candidates min_score max_results = [] ->
  exists a,
    ask complete detect_conflicts question
        (Relevance.filter fused_candidates min_score max_results)
    = (Returned a Refused_NoEvidence, []) /\
    answerable a = false /\ citations a = [] /\ text a = refusal_answer.
Proof.
  intros ->. exists (refusal []). repeat split.
Qed.

Lemma empty_evidence_short_circuit_witness :
  Relevance.filter [sample_evidence] (2 # 61) 5 = [] /\
  exists a,
    ask (fun _ => Some cited_generation) (fun _ => []) (of_string "Klimaanlage?")
        (Relevance.filter [sample_evidence] (2 # 61) 5)
    = (Returned a Refused_NoEvidence, []) /\
    answerable a = false /\ citations a = [] /\ text a = refusal_answer.
Proof.
  split.
  - reflexivity.
  - apply empty_evidence_short_circuit. reflexivity.
Defined.






End ComposerFacts.

(** ** The dashboard bars *)

Module DashboardFacts.
Import Dashboard.
Local Open Scope Q_scope.


Lemma divisor_spec (stats : option FeedbackStats) :
  divisor stats =
  match stats with
  | Some {| total := Some t |} => if Qeq_bool t 0 then 1 else t
  | _ => 1
  end.
Proof. destruct stats as [[[t|] m]|]; reflexivity. Qed.

Example bar_width_half :
  bar_width (Some {| total := Some 40; by_source_type := Some {[ "voice"%string := 20 ]} |})
            "voice"
  = Finite (20 / 40 * 100).
Proof. reflexivity. Qed.



End DashboardFacts.

(** ** Three-way comparisons and their lexicographic combination *)

Module ComparisonFacts.
Import Ordering.

Section Comparisons.
Context {A : Type}.


End Comparisons.

(** [String.compare] is such a comparison. *)
Lemma ascii_compare_refl (a : ascii) : Ascii.compare a a = Eq.
Proof. unfold Ascii.compare. apply N.compare_refl. Qed.

Lemma string_compare_refl (s : string) : String.compare s s = Eq.
Proof.
  induction s as [|a s IH]; simpl; [reflexivity |].
  now rewrite ascii_compare_refl.
Qed.





End ComparisonFacts.

(** ** Reciprocal rank fusion *)

Module FusionFacts.
Import Ordering ComparisonFacts Fusion.
Local Open Scope Q_scope.

(** *** The output order is a total order on candidates *)












(** *** What the fused list contains *)





(** *** Ranks and positions *)






Example fuse_both_lists :
  map (fun c => (fused_id c, Qred (fused_score c), contributing_methods c))
      (fuse (ranked both_lexical) (ranked both_semantic))
  = [("D1"%string, 2 # 61, [Lexical; Semantic]);
     ("D3"%string, 1 # 62, [Lexical]);
     ("D2"%string, 1 # 62, [Semantic])].
Proof. vm_compute. reflexivity. Qed.

(** The worked example of the documentation: rank 1 in the BM25 list and
    rank 5 in the vector list give 1/61 + 1/65, about 0.0318. *)
Example rrf_score_documented :
  let bm25 := rankings [ {| document_id := "A"; rank := 1; method_score := 12 # 1 |} ] in
  let vector := rankings [ {| document_id := "A"; rank := 5; method_score := 7 # 10 |} ] in
  rrf_score vector bm25 "A" == 1 / 61 + 1 / 65 /\
  317 # 10000 < rrf_score vector bm25 "A" /\ rrf_score vector bm25 "A" < 318 # 10000.
Proof. vm_compute. repeat split; reflexivity || discriminate. Qed.

Lemma reciprocal_lt (m n : nat) : (m < n)%nat -> reciprocal n < reciprocal m.
Proof.
  intros H. unfold reciprocal, Qdiv. rewrite !Qmult_1_l.
  apply -> Qinv_lt_contravar.
  - rewrite <- Zlt_Qlt. unfold K. lia.
  - change 0 with (inject_Z 0). rewrite <- Zlt_Qlt. unfold K. lia.
  - change 0 with (inject_Z 0). rewrite <- Zlt_Qlt. unfold K. lia.
Qed.

Lemma reciprocal_pos (n : nat) : 0 < reciprocal n.
Proof.
  unfold reciprocal, Qdiv. rewrite Qmult_1_l. apply Qinv_lt_0_compat.
  change 0 with (inject_Z 0). rewrite <- Zlt_Qlt. unfold K. lia.
Qed.

Lemma rrf_score_rank_1_both (vr br : gmap string RankedCandidate) (d : string) :
  at_rank_1 vr d = true -> at_rank_1 br d = true ->
  rrf_score vr br d == reciprocal 1 + reciprocal 1.
Proof.
  unfold at_rank_1, rank_of, rrf_score.
  destruct (vr !! d) as [[? [|[|?]] ?]|]; simpl; try discriminate.
  destruct (br !! d) as [[? [|[|?]] ?]|]; simpl; try discriminate.
  intros _ _. ring.
Qed.

Lemma rrf_score_rank_1_one (vr br : gmap string RankedCandidate) (d : string) :
  rank_of vr d <> Some 0%nat -> rank_of br d <> Some 0%nat ->
  xorb (at_rank_1 vr d) (at_rank_1 br d) = true ->
  rrf_score vr br d < reciprocal 1 + reciprocal 1.
Proof.
  unfold at_rank_1, rank_of, rrf_score.
  pose proof (reciprocal_pos 1) as Hpos.
  destruct (vr !! d) as [[? [|[|n]] ?]|]; simpl;
    destruct (br !! d) as [[? [|[|m]] ?]|]; simpl;
    try congruence; try discriminate; intros _ _ _.
  - pose proof (reciprocal_lt 1 (S (S m)) ltac:(lia)). lra.
  - lra.
  - pose proof (reciprocal_lt 1 (S (S n)) ltac:(lia)). lra.
  - lra.
Qed.

(** C5: a document at rank 1 of both lists has a strictly higher fused
    score than a document at rank 1 of exactly one list, whether or not
    that document also appears further down the other list. *)
Theorem rank_1_in_both_beats_rank_1_in_one
    (vr br vr' br' : gmap string RankedCandidate) (d1 d2 : string) :
  at_rank_1 vr d1 = true -> at_rank_1 br d1 = true ->
  rank_of vr' d2 <> Some 0%nat -> rank_of br' d2 <> Some 0%nat ->
  xorb (at_rank_1 vr' d2) (at_rank_1 br' d2) = true ->
  rrf_score vr' br' d2 < rrf_score vr br d1.
Proof.
  intros H1 H2 Hv Hb Hx.
  rewrite (rrf_score_rank_1_both vr br d1 H1 H2).
  now apply rrf_score_rank_1_one.
Qed.

Lemma rank_1_in_both_beats_rank_1_in_one_witness :
  rrf_score (rankings (ranked one_semantic)) (rankings (ranked one_lexical)) "D2"
  < rrf_score (rankings (ranked both_semantic)) (rankings (ranked both_lexical)) "D1".
Proof.
  apply rank_1_in_both_beats_rank_1_in_one.
  - vm_compute. reflexivity.
  - vm_compute. reflexivity.
  - vm_compute. discriminate.
  - vm_compute. discriminate.
  - vm_compute. reflexivity.
Defined.



Example fuse_tied :
  map fused_id (fuse tied []) = ["FB-1"%string; "FB-2"%string] /\
  map fused_id (fuse tied_swapped []) = ["FB-1"%string; "FB-2"%string].
Proof. vm_compute. split; reflexivity. Qed.


End FusionFacts.

(** ** The shape of pattern matches *)

Module RegexShapeFacts.
Import Text Regex RegexShape PII.

Lemma in_class_app (a b : charset) (c : ascii) :
  in_class (a ++ b) c = in_class a c || in_class b c.
Proof. unfold in_class. apply existsb_app. Qed.

Lemma last_of_app (prev : option ascii) (w1 w2 : str) :
  last_of prev (w1 ++ w2) = last_of (last_of prev w1) w2.
Proof. unfold last_of. apply fold_left_app. Qed.

(** What a greedy repetition reads. *)
Lemma rep_consumes (cs : charset) (k : cont) (res : nat) (s : str) :
  forall lo hi prev n,
    rep cs lo hi k prev s n = Some res ->
    exists w s',
      s = w ++ s' /\
      Forall (fun c => in_class cs c = true) w /\
      lo <= length w /\
      (forall h, hi = Some h -> length w <= h) /\
      k (last_of prev w) s' (n + length w) = Some res.
Proof.
  induction s as [|c s IH]; intros lo hi prev n H; simpl in H.
  - destruct lo; [| discriminate].
    exists [], []. simpl. rewrite Nat.add_0_r.
    repeat split; auto; intros; lia.
  - assert (Hstop : match lo with 0 => k prev (c :: s) n | S _ => None end = Some res ->
                    exists w s', c :: s = w ++ s' /\
                      Forall (fun c => in_class cs c = true) w /\
                      lo <= length w /\
                      (forall h, hi = Some h -> length w <= h) /\
                      k (last_of prev w) s' (n + length w) = Some res).
    { intros Hk. destruct lo; [| discriminate].
      exists [], (c :: s). simpl. rewrite Nat.add_0_r.
      repeat split; auto; intros; lia. }
    destruct (may_repeat hi && in_class cs c) eqn:Hc; [| auto].
    destruct (rep cs (pred lo) (dec hi) k (Some c) s (S n)) as [r|] eqn:E; [| auto].
    inversion H; subst r.
    apply andb_true_iff in Hc as [Hhi Hin].
    apply IH in E as (w & s' & -> & Hall & Hlo & Hmax & Hk).
    exists (c :: w), s'. simpl.
    replace (n + S (length w)) with (S n + length w) by lia.
    repeat split; auto.
    + lia.
    + intros h ->. destruct h as [|h]; [discriminate |].
      specialize (Hmax h eq_refl). lia.
Qed.

(** What a pattern reads before the rest of the search runs: a prefix
    [w] of the text, made of characters of the pattern, between
    [min_len] and [max_len] long, with a word boundary at either end
    where the pattern asks for one. *)
Lemma run_consumes (r : regex) (res : nat) :
  forall k prev s n,
    run r k prev s n = Some res ->
    exists w s',
      s = w ++ s' /\
      Forall (fun c => in_class (alphabet r) c = true) w /\
      min_len r <= length w /\
      (forall m, max_len r = Some m -> length w <= m) /\
      (opens_at_boundary r = true -> boundary prev s = true) /\
      (closes_at_boundary r = true -> boundary (last_of prev w) s' = true) /\
      k (last_of prev w) s' (n + length w) = Some res.
Proof.
  induction r as [cs | cs lo hi | | r1 IH1 r2 IH2 | r1 IH1 r2 IH2];
    intros k prev s n H; simpl in H.
  - destruct s as [|c s]; [discriminate |].
    destruct (in_class cs c) eqn:Hc; [| discriminate].
    exists [c], s. simpl. replace (n + 1) with (S n) by lia.
    repeat split; auto; try discriminate.
    intros m Hm. inversion Hm. lia.
  - apply rep_consumes in H as (w & s' & -> & Hall & Hlo & Hmax & Hk).
    exists w, s'. simpl. repeat split; auto; discriminate.
  - destruct (xorb (is_word prev) (is_word (head s))) eqn:Hb; [| discriminate].
    exists [], s. simpl. rewrite Nat.add_0_r.
    repeat split; auto. intros m Hm. inversion Hm. lia.
  - apply IH1 in H as (w1 & s1 & -> & Hall1 & Hmin1 & Hmax1 & Ho1 & Hc1 & H).
    apply IH2 in H as (w2 & s2 & -> & Hall2 & Hmin2 & Hmax2 & Ho2 & Hc2 & H).
    exists (w1 ++ w2), s2. simpl.
    rewrite last_of_app, length_app, <- app_assoc.
    replace (n + (length w1 + length w2)) with (n + length w1 + length w2) by lia.
    repeat split; auto.
    + apply Forall_app. split.
      * eapply List.Forall_impl; [| exact Hall1].
        intros c Hc. simpl in Hc. rewrite in_class_app, Hc. reflexivity.
      * eapply List.Forall_impl; [| exact Hall2].
        intros c Hc. simpl in Hc. rewrite in_class_app, Hc. apply orb_true_r.
    + lia.
    + intros m Hm. destruct (max_len r1) as [a|]; [| discriminate].
      destruct (max_len r2) as [b|]; [| discriminate].
      inversion Hm. specialize (Hmax1 a eq_refl). specialize (Hmax2 b eq_refl). lia.
  - assert (Hor : run r1 k prev s n = Some res \/ run r2 k prev s n = Some res).
    { destruct (run r1 k prev s n) as [x|]; [left; congruence | right; exact H]. }
    destruct Hor as [H1 | H2].
    + apply IH1 in H1 as (w & s' & -> & Hall & Hmin & Hmax & Ho & Hc & Hk).
      exists w, s'. simpl. repeat split; auto.
      * eapply List.Forall_impl; [| exact Hall].
        intros c Hcl. simpl in Hcl. rewrite in_class_app, Hcl. reflexivity.
      * lia.
      * intros m Hm. destruct (max_len r1) as [a|]; [| discriminate].
        destruct (max_len r2) as [b|]; [| discriminate].
        inversion Hm. specialize (Hmax a eq_refl). lia.
      * intros Hb. apply andb_true_iff in Hb as [Hb _]. auto.
      * intros Hb. apply andb_true_iff in Hb as [Hb _]. auto.
    + apply IH2 in H2 as (w & s' & -> & Hall & Hmin & Hmax & Ho & Hc & Hk).
      exists w, s'. simpl. repeat split; auto.
      * eapply List.Forall_impl; [| exact Hall].
        intros c Hcl. simpl in Hcl. rewrite in_class_app, Hcl. apply orb_true_r.
      * lia.
      * intros m Hm. destruct (max_len r1) as [a|]; [| discriminate].
        destruct (max_len r2) as [b|]; [| discriminate].
        inversion Hm. specialize (Hmax b eq_refl). lia.
      * intros Hb. apply andb_true_iff in Hb as [_ Hb]. auto.
      * intros Hb. apply andb_true_iff in Hb as [_ Hb]. auto.
Qed.

Lemma match_at_shape (r : regex) (prev : option ascii) (s : str) (len : nat) :
  match_at r prev s = Some len ->
  len <= length s /\
  Forall (fun c => in_class (alphabet r) c = true) (firstn len s) /\
  min_len r <= len /\
  (forall m, max_len r = Some m -> len <= m) /\
  (opens_at_boundary r = true -> boundary prev s = true) /\
  (closes_at_boundary r = true ->
     boundary (last_of prev (firstn len s)) (skipn len s) = true).
Proof.
  unfold match_at. intros H.
  apply run_consumes in H as (w & s' & -> & Hall & Hmin & Hmax & Ho & Hc & Hk).
  inversion Hk; subst len. simpl.
  rewrite length_app, take_app_length, drop_app_length.
  repeat split; auto. lia.
Qed.

End RegexShapeFacts.

(** ** What the registered patterns match *)

Module PatternFacts.
Import Text Regex RegexShape PII RegexShapeFacts.

Example pattern_lengths :
  map (fun d => (det_kind d, min_len (det_pattern d), max_len (det_pattern d))) patterns
  = [(Email, 6, None); (PhoneDe, 6, Some 18); (PlateDe, 3, Some 12);
     (Vin, 17, Some 17); (Date, 6, Some 10)].
Proof. vm_compute. reflexivity. Qed.

(** X1: a match of a registered pattern lies inside the text and has at
    least 6 characters for an e-mail address, 6 to 18 for a phone number,
    3 to 12 for a plate, exactly 17 for a VIN and 6 to 10 for a date. *)
Theorem pattern_match_lengths (d : detector) (prev : option ascii) (s : str) (len : nat) :
  In d patterns ->
  match_at (det_pattern d) prev s = Some len ->
  len <= length s /\
  match det_kind d with
  | Email => 6 <= len
  | PhoneDe => 6 <= len <= 18
  | PlateDe => 3 <= len <= 12
  | Vin => len = 17
  | Date => 6 <= len <= 10
  | PersonName => False
  end.
Proof.
  intros Hd H.
  apply match_at_shape in H as (Hlen & _ & Hmin & Hmax & _).
  split; [exact Hlen |].
  unfold patterns in Hd. simpl in Hd.
  destruct Hd as [<- | [<- | [<- | [<- | [<- | []]]]]];
    cbn [det_kind det_pattern] in *.
  - assert (E : min_len email_re = 6) by reflexivity. lia.
  - assert (E : min_len phone_de_re = 6) by reflexivity.
    specialize (Hmax 18 eq_refl). lia.
  - assert (E : min_len plate_de_re = 3) by reflexivity.
    specialize (Hmax 12 eq_refl). lia.
  - assert (E : min_len vin_re = 17) by reflexivity.
    specialize (Hmax 17 eq_refl). lia.
  - assert (E : min_len date_re = 6) by reflexivity.
    specialize (Hmax 10 eq_refl). lia.
Qed.

Lemma pattern_match_lengths_witness :
  match_at vin_re None (of_string "WVWZZZ1JZXW000001") = Some 17 /\ 17 = 17.
Proof.
  split.
  - vm_compute. reflexivity.
  - apply (pattern_match_lengths
             {| det_kind := Vin; det_pattern := vin_re; det_tag := of_string "[VIN]" |}
             None (of_string "WVWZZZ1JZXW000001") 17).
    + unfold patterns. simpl. tauto.
    + vm_compute. reflexivity.
Defined.

(** X2: what the VIN pattern matches is 17 characters long, consists of
    digits and capital letters other than I, O and Q, and stands between
    two word boundaries. *)
Theorem vin_match_shape (prev : option ascii) (s : str) (len : nat) :
  match_at vin_re prev s = Some len ->
  len = 17 /\
  Forall (fun c => in_class vin_alphabet c = true /\
                   c <> "I"%char /\ c <> "O"%char /\ c <> "Q"%char) (firstn len s) /\
  boundary prev s = true /\
  boundary (last_of prev (firstn len s)) (skipn len s) = true.
Proof.
  intros H.
  apply match_at_shape in H as (_ & Hall & Hmin & Hmax & Ho & Hc).
  assert (E : min_len vin_re = 17) by reflexivity. specialize (Hmax 17 eq_refl).
  repeat split; auto; try lia.
  eapply List.Forall_impl; [| exact Hall].
  intros c Hin. change (alphabet vin_re) with vin_alphabet in Hin.
  repeat split; auto; intros ->; vm_compute in Hin; discriminate.
Qed.

Lemma vin_match_shape_witness :
  match_at vin_re None (of_string "WVWZZZ1JZXW000001") = Some 17 /\ 17 = 17.
Proof.
  split.
  - vm_compute. reflexivity.
  - apply (vin_match_shape None (of_string "WVWZZZ1JZXW000001") 17).
    vm_compute. reflexivity.
Defined.

(** X3: the phone pattern opens with a word boundary, and a plus sign is
    not a word character: the [+49] form is matched only when a letter,
    digit or underscore stands right before the plus sign.  At the start
    of a text or after a blank it finds nothing. *)
Theorem phone_plus_needs_word_before (prev : option ascii) (s : str) :
  is_word prev = false ->
  match_at phone_de_re prev ("+"%char :: s) = None.
Proof.
  intros Hw.
  destruct (match_at phone_de_re prev ("+"%char :: s)) as [len|] eqn:E; [| reflexivity].
  apply match_at_shape in E as (_ & _ & _ & _ & Ho & _).
  specialize (Ho eq_refl). unfold boundary in Ho. simpl in Ho.
  rewrite Hw in Ho. vm_compute in Ho. discriminate.
Qed.

Lemma phone_plus_needs_word_before_witness :
  is_word (Some " "%char) = false /\
  match_at phone_de_re (Some " "%char) (of_string "+49 151 2345678") = None.
Proof.
  split.
  - reflexivity.
  - apply (phone_plus_needs_word_before (Some " "%char) (of_string "49 151 2345678")).
    reflexivity.
Defined.

Example phone_plus_not_detected :
  detect (of_string "Tel +49 151 2345678") = [] /\
  map (fun m => (pm_kind m, pm_start m, pm_end m))
      (detect (of_string "Tel+49 151 2345678")) = [(PhoneDe, 3, 18)].
Proof. vm_compute. split; reflexivity. Qed.

(** X4: every match of the e-mail, phone, plate or VIN pattern begins
    and ends at a word boundary, so none of them starts or stops in the
    middle of a word; the date pattern has no such anchor. *)
Theorem pattern_word_boundaries (d : detector) (prev : option ascii) (s : str) (len : nat) :
  In d patterns -> det_kind d <> Date ->
  match_at (det_pattern d) prev s = Some len ->
  boundary prev s = true /\
  boundary (last_of prev (firstn len s)) (skipn len s) = true.
Proof.
  intros Hd Hk H.
  apply match_at_shape in H as (_ & _ & _ & _ & Ho & Hc).
  unfold patterns in Hd. simpl in Hd.
  destruct Hd as [<- | [<- | [<- | [<- | [<- | []]]]]]; simpl in *;
    try (split; [apply Ho | apply Hc]; reflexivity).
  congruence.
Qed.

Lemma pattern_word_boundaries_witness :
  boundary (Some " "%char) (of_string "B-AB 1234") = true.
Proof.
  apply (pattern_word_boundaries
           {| det_kind := PlateDe; det_pattern := plate_de_re;
              det_tag := of_string "[KENNZEICHEN]" |}
           (Some " "%char) (of_string "B-AB 1234") 9).
  - unfold patterns. simpl. tauto.
  - discriminate.
  - vm_compute. reflexivity.
Defined.

(** Texts that avoid a set of characters. *)
Lemma subset_spec (cs bad : charset) (c : ascii) :
  subset cs bad = true -> in_class cs c = true -> in_class bad c = true.
Proof.
  unfold subset. intros H Hc. rewrite List.forallb_forall in H.
  assert (Hin : In (nat_of_ascii c) (seq 0 256)).
  { apply in_seq. pose proof (nat_ascii_bounded c). lia. }
  apply H in Hin. rewrite ascii_nat_embedding, Hc in Hin.
  destruct (in_class bad c); [reflexivity | discriminate].
Qed.

Section Avoid.
Variable bad : charset.

Local Abbreviation avoids := (Forall (fun c => in_class bad c = false)).

Lemma rep_passes (cs : charset) (k : cont) (s : str) :
  (forall p s' n', avoids s' -> k p s' n' = None) ->
  avoids s ->
  forall lo hi prev n, rep cs lo hi k prev s n = None.
Proof.
  intros Hk. induction s as [|c s IH]; intros Hs lo hi prev n; simpl.
  - destruct lo; auto.
  - assert (Hs' : avoids s) by (inversion Hs; assumption).
    rewrite (IH Hs').
    destruct (may_repeat hi && in_class cs c); destruct lo; auto.
Qed.

Lemma rep_needs (cs : charset) (k : cont) (s : str) :
  subset cs bad = true -> avoids s ->
  forall lo hi prev n, 1 <= lo -> rep cs lo hi k prev s n = None.
Proof.
  intros Hsub Hs lo hi prev n Hlo.
  destruct lo as [|lo]; [lia |].
  destruct s as [|c s]; simpl; [reflexivity |].
  destruct (in_class cs c) eqn:Hc.
  - apply (subset_spec _ _ _ Hsub) in Hc.
    inversion Hs; subst. congruence.
  - now rewrite andb_false_r.
Qed.

Lemma run_passes (r : regex) :
  forall k, (forall p s' n', avoids s' -> k p s' n' = None) ->
  forall prev s n, avoids s -> run r k prev s n = None.
Proof.
  induction r as [cs | cs lo hi | | r1 IH1 r2 IH2 | r1 IH1 r2 IH2];
    intros k Hk prev s n Hs; simpl.
  - destruct s as [|c s]; [reflexivity |].
    destruct (in_class cs c); [| reflexivity].
    apply Hk. now inversion Hs.
  - now apply rep_passes.
  - destruct (xorb (is_word prev) (is_word (head s))); auto.
  - apply IH1; [| exact Hs]. intros p s' n' Hs'. now apply IH2.
  - rewrite IH1 by assumption. now apply IH2.
Qed.

Lemma run_needs (r : regex) :
  needs bad r = true ->
  forall k prev s n, avoids s -> run r k prev s n = None.
Proof.
  induction r as [cs | cs lo hi | | r1 IH1 r2 IH2 | r1 IH1 r2 IH2];
    intros Hn k prev s n Hs; simpl in *.
  - destruct s as [|c s]; [reflexivity |].
    destruct (in_class cs c) eqn:Hc; [| reflexivity].
    apply (subset_spec _ _ _ Hn) in Hc. inversion Hs; subst. congruence.
  - apply andb_true_iff in Hn as [Hlo Hsub].
    apply rep_needs; auto. now apply Nat.leb_le.
  - discriminate.
  - apply orb_true_iff in Hn as [Hn | Hn].
    + now apply IH1.
    + apply run_passes; [| exact Hs]. intros p s' n' Hs'. now apply IH2.
  - apply andb_true_iff in Hn as [Hn1 Hn2].
    rewrite IH1 by assumption. now apply IH2.
Qed.

Lemma scan_needs (r : regex) (s : str) :
  needs bad r = true -> avoids s ->
  forall prev pos skip, scan r prev s pos skip = [].
Proof.
  intros Hn. induction s as [|c s IH]; intros Hs prev pos skip; simpl.
  - reflexivity.
  - assert (Hs' : avoids s) by (inversion Hs; assumption).
    destruct skip; [| now apply IH].
    unfold match_at. rewrite (run_needs r Hn) by exact Hs. now apply IH.
Qed.
End Avoid.

(** X5: no registered pattern matches anywhere in a text that has no
    digit, no at sign and no ASCII capital letter. *)
Theorem plain_text_has_no_pii (text : str) :
  Forall (fun c => in_class pii_marks c = false) text ->
  has_pii text = false /\ detect text = [].
Proof.
  intros Hs.
  assert (Hnone : forall d, In d patterns -> finditer (det_pattern d) text = []).
  { intros d Hd. unfold finditer. apply (scan_needs pii_marks); [| exact Hs].
    unfold patterns in Hd. simpl in Hd.
    destruct Hd as [<- | [<- | [<- | [<- | [<- | []]]]]]; vm_compute; reflexivity. }
  split.
  - unfold has_pii. apply not_true_iff_false. intros H.
    apply existsb_exists in H as (d & Hd & H).
    unfold search in H. rewrite (Hnone d Hd) in H. discriminate.
  - unfold detect, detect_with. 
    assert (Hall : forall ds, (forall d, In d ds -> In d patterns) ->
                     flat_map (fun d => run_detector d text) ds = []).
    { induction ds as [|d ds IH]; intros Hin; simpl; [reflexivity |].
      unfold run_detector at 1. rewrite (Hnone d) by (apply Hin; now left).
      simpl. apply IH. intros d' Hd'. apply Hin. now right. }
    apply Hall. auto.
Qed.

Lemma plain_text_has_no_pii_witness :
  has_pii (of_string "der sprachassistent reagiert nicht") = false.
Proof.
  apply (plain_text_has_no_pii (of_string "der sprachassistent reagiert nicht")).
  vm_compute. repeat constructor.
Defined.

(** A word of 17 capital letters is taken for a VIN although it has no
    digit. *)
Example letters_only_vin :
  map (fun m => (pm_kind m, pm_start m, pm_end m))
      (detect (of_string "Modell ABCDEFGHJKLMNPRST bestellt")) = [(Vin, 7, 24)].
Proof. vm_compute. reflexivity. Qed.

End PatternFacts.

(** ** More on the fusion loop and the relevance threshold *)

Module FusionScoreFacts.
Import Fusion FusionFacts.
Local Open Scope Q_scope.

Lemma reciprocal_le (m n : nat) : (m <= n)%nat -> reciprocal n <= reciprocal m.
Proof.
  intros H. destruct (Nat.eq_dec m n) as [-> | Hne].
  - apply Qle_refl.
  - apply Qlt_le_weak, reciprocal_lt. lia.
Qed.

Lemma rrf_score_cases (vr br : gmap string RankedCandidate) (d : string) :
  rrf_score vr br d == term (rank_of vr d) + term (rank_of br d).
Proof.
  unfold rrf_score, rank_of, term.
  destruct (vr !! d), (br !! d); simpl; ring.
Qed.

Lemma term_bounds (r : option nat) :
  r <> Some 0%nat ->
  0 <= term r /\ term r <= 1 / 61 /\
  (0 < term r <-> r <> None) /\
  (term r == 1 / 61 <-> r = Some 1%nat).
Proof.
  intros H0. assert (H1 : reciprocal 1 == 1 / 61) by reflexivity.
  assert (Hp : 0 < 1 / 61) by reflexivity.
  destruct r as [[|[|n]]|]; cbn [term].
  - congruence.
  - pose proof (reciprocal_pos 1).
    split; [lra | split; [lra | split; split]]; try congruence; try lra; auto.
  - pose proof (reciprocal_pos (S (S n))).
    pose proof (reciprocal_lt 1 (S (S n)) ltac:(lia)).
    split; [lra | split; [lra | split; split]]; try congruence; try lra; auto.
  - split; [lra | split; [lra | split; split]]; try congruence; try lra.
Qed.

Lemma at_rank_1_spec (rs : gmap string RankedCandidate) (d : string) :
  at_rank_1 rs d = true <-> rank_of rs d = Some 1%nat.
Proof.
  unfold at_rank_1. destruct (rank_of rs d) as [[|[|n]]|]; split; congruence.
Qed.

(** X6: the fused score of a document is positive exactly when one of
    the two rankings contains it, and with 1-based ranks it never exceeds
    2/61, which it reaches only for a document that leads both lists. *)
Theorem rrf_score_bounds (vr br : gmap string RankedCandidate) (d : string) :
  rank_of vr d <> Some 0%nat -> rank_of br d <> Some 0%nat ->
  0 <= rrf_score vr br d /\
  rrf_score vr br d <= 2 / 61 /\
  (0 < rrf_score vr br d <-> (is_Some (vr !! d) \/ is_Some (br !! d))) /\
  (rrf_score vr br d == 2 / 61 <-> (at_rank_1 vr d = true /\ at_rank_1 br d = true)).
Proof.
  intros Hv Hb. rewrite rrf_score_cases, !at_rank_1_spec.
  destruct (term_bounds _ Hv) as (Hv0 & Hv1 & Hvp & Hve).
  destruct (term_bounds _ Hb) as (Hb0 & Hb1 & Hbp & Hbe).
  assert (Hsv : is_Some (vr !! d) <-> rank_of vr d <> None).
  { unfold rank_of. destruct (vr !! d); simpl; split; intros H; eauto; try congruence.
    destruct H; discriminate. }
  assert (Hsb : is_Some (br !! d) <-> rank_of br d <> None).
  { unfold rank_of. destruct (br !! d); simpl; split; intros H; eauto; try congruence.
    destruct H; discriminate. }
  rewrite Hsv, Hsb, <- Hvp, <- Hbp, <- Hve, <- Hbe.
  assert (E : 2 / 61 == 1 / 61 + 1 / 61) by reflexivity.
  split; [lra | split; [lra | split; split]].
  - intros H. destruct (Qlt_le_dec 0 (term (rank_of vr d))); [tauto | right; lra].
  - intros [H | H]; lra.
  - intros H. split; lra.
  - intros [H1 H2]. lra.
Qed.

Lemma rrf_score_bounds_witness :
  rrf_score (rankings (ranked both_semantic)) (rankings (ranked both_lexical)) "D1" <= 2 / 61.
Proof.
  apply (rrf_score_bounds (rankings (ranked both_semantic)) (rankings (ranked both_lexical)) "D1").
  - vm_compute. discriminate.
  - vm_compute. discriminate.
Defined.

(** X7: the two methods weigh the same (swapping the two rankings leaves
    every score unchanged), and a document that moves up in one list, or
    enters it, gets a strictly higher score while its place in the other
    list stays as it is. *)
Theorem rrf_score_symmetric_monotone
    (vr vr' br : gmap string RankedCandidate) (d : string) :
  rrf_score vr br d == rrf_score br vr d /\
  (forall r r', rank_of vr d = Some r -> rank_of vr' d = Some r' ->
                (r' < r)%nat -> rrf_score vr br d < rrf_score vr' br d) /\
  (forall r', rank_of vr d = None -> rank_of vr' d = Some r' ->
              rrf_score vr br d < rrf_score vr' br d).
Proof.
  split; [rewrite !rrf_score_cases; ring | split].
  - intros r r' Hr Hr' Hlt. rewrite !rrf_score_cases, Hr, Hr'. simpl.
    pose proof (reciprocal_lt r' r Hlt). lra.
  - intros r' Hr Hr'. rewrite !rrf_score_cases, Hr, Hr'. simpl.
    pose proof (reciprocal_pos r'). lra.
Qed.

Lemma rrf_score_symmetric_monotone_witness :
  (rrf_score (rankings (ranked one_semantic)) (rankings (ranked both_lexical)) "D1"
   < rrf_score (rankings (ranked both_semantic)) (rankings (ranked both_lexical)) "D1")%Q.
Proof.
  refine (proj1 (proj2 (rrf_score_symmetric_monotone
            (rankings (ranked one_semantic)) (rankings (ranked both_semantic))
            (rankings (ranked both_lexical)) "D1")) 2%nat 1%nat _ _ _).
  - vm_compute. reflexivity.
  - vm_compute. reflexivity.
  - lia.
Defined.

Example reciprocal_at_threshold :
  Relevance.MIN_RELEVANCE_SCORE <= reciprocal 6 /\
  reciprocal 7 < Relevance.MIN_RELEVANCE_SCORE /\
  Relevance.MIN_RELEVANCE_SCORE <= reciprocal 73 + reciprocal 73 /\
  reciprocal 74 + reciprocal 74 < Relevance.MIN_RELEVANCE_SCORE.
Proof. vm_compute. repeat split; discriminate || reflexivity. Qed.

(** X8: with k = 60 and the threshold 0.015, a source whose score is the
    fused score of a document found by one method only is kept exactly
    when its rank there is at most 6; a document found by both methods is
    kept whenever both ranks are at most 73 and dropped when both are 74
    or more. *)
Theorem threshold_on_fused_scores
    (vr br : gmap string RankedCandidate) (d : string) (s : Relevance.EvidenceItem) :
  Relevance.fused_score s == rrf_score vr br d ->
  let kept := Relevance.relevant_sources Relevance.MIN_RELEVANCE_SCORE [s] = [s] in
  (forall r, rank_of vr d = Some r -> rank_of br d = None -> (kept <-> (r <= 6)%nat)) /\
  (forall r, rank_of vr d = None -> rank_of br d = Some r -> (kept <-> (r <= 6)%nat)) /\
  (forall r1 r2, rank_of vr d = Some r1 -> rank_of br d = Some r2 ->
     ((r1 <= 73)%nat -> (r2 <= 73)%nat -> kept) /\
     ((74 <= r1)%nat -> (74 <= r2)%nat -> ~ kept)).
Proof.
  intros Hs. cbv zeta.
  assert (Hkept : Relevance.relevant_sources Relevance.MIN_RELEVANCE_SCORE [s] = [s]
                  <-> Relevance.MIN_RELEVANCE_SCORE <= rrf_score vr br d).
  { unfold Relevance.relevant_sources. simpl.
    destruct (Qle_bool Relevance.MIN_RELEVANCE_SCORE (Relevance.fused_score s)) eqn:E.
    - apply Qle_bool_iff in E. rewrite Hs in E. tauto.
    - split; [discriminate |]. intros H. rewrite <- Hs in H.
      apply Qle_bool_iff in H. congruence. }
  destruct reciprocal_at_threshold as (H6 & H7 & H73 & H74).
  split; [| split].
  - intros r Hr1 Hr2. rewrite Hkept, rrf_score_cases, Hr1, Hr2. simpl. split.
    + intros H. destruct (Nat.le_gt_cases r 6) as [Hle | Hgt]; [exact Hle |].
      pose proof (reciprocal_le 7 r ltac:(lia)). lra.
    + intros Hle. pose proof (reciprocal_le r 6 Hle). lra.
  - intros r Hr1 Hr2. rewrite Hkept, rrf_score_cases, Hr1, Hr2. simpl. split.
    + intros H. destruct (Nat.le_gt_cases r 6) as [Hle | Hgt]; [exact Hle |].
      pose proof (reciprocal_le 7 r ltac:(lia)). lra.
    + intros Hle. pose proof (reciprocal_le r 6 Hle). lra.
  - intros r1 r2 Hr1 Hr2. rewrite Hkept, rrf_score_cases, Hr1, Hr2. simpl. split.
    + intros H1 H2. pose proof (reciprocal_le r1 73 H1).
      pose proof (reciprocal_le r2 73 H2). lra.
    + intros H1 H2. pose proof (reciprocal_le 74 r1 H1).
      pose proof (reciprocal_le 74 r2 H2). lra.
Qed.

Lemma threshold_on_fused_scores_witness :
  let s := {| Relevance.document_id := "D3"; Relevance.text_snippet := [];
              Relevance.fused_score := 1 # 62; Relevance.metadata := [] |} in
  Relevance.relevant_sources Relevance.MIN_RELEVANCE_SCORE [s] = [s].
Proof.
  cbv zeta.
  refine (proj2 (proj1 (proj2 (threshold_on_fused_scores
            (rankings (ranked both_semantic)) (rankings (ranked both_lexical)) "D3"
            {| Relevance.document_id := "D3"; Relevance.text_snippet := [];
               Relevance.fused_score := 1 # 62; Relevance.metadata := [] |} _))
          2%nat _ _) _).
  - vm_compute. reflexivity.
  - vm_compute. reflexivity.
  - vm_compute. reflexivity.
  - lia.
Defined.

End FusionScoreFacts.

(** ** The query tokenizer *)

Module TokenizerFacts.
Import Text Tokenizer.

Lemma lower_char_idempotent (c : ascii) : lower_char (lower_char c) = lower_char c.
Proof. destruct c as [[] [] [] [] [] [] [] []]; reflexivity. Qed.

Lemma lower_char_space (c : ascii) :
  in_class space (lower_char c) = in_class space c.
Proof. destruct c as [[] [] [] [] [] [] [] []]; reflexivity. Qed.

Local Arguments in_class : simpl never.

Lemma lower_idempotent (s : str) : lower (lower s) = lower s.
Proof.
  unfold lower. rewrite List.map_map. apply List.map_ext.
  intros c. apply lower_char_idempotent.
Qed.

Lemma split_from_words (cur s : str) :
  forallb not_space cur = true ->
  Forall (fun w => w <> [] /\ forallb not_space w = true) (split_from cur s).
Proof.
  revert cur. induction s as [|c s IH]; intros cur Hcur; simpl.
  - destruct cur; simpl; [constructor |].
    constructor; [split; [discriminate | exact Hcur] | constructor].
  - destruct (in_class space c) eqn:E.
    + specialize (IH [] eq_refl).
      destruct cur; simpl; [exact IH |].
      constructor; [split; [discriminate | exact Hcur] | exact IH].
    + apply IH. rewrite forallb_app, Hcur. simpl. unfold not_space. now rewrite E.
Qed.

Lemma concat_emit (cur : str) (rest : list str) :
  concat (emit cur rest) = cur ++ concat rest.
Proof. destruct cur; reflexivity. Qed.

Lemma split_from_concat (cur s : str) :
  concat (split_from cur s) = cur ++ List.filter not_space s.
Proof.
  revert cur. induction s as [|c s IH]; intros cur; simpl.
  - rewrite concat_emit. reflexivity.
  - unfold not_space at 1. destruct (in_class space c) eqn:E; simpl.
    + rewrite concat_emit, IH. reflexivity.
    + rewrite IH, <- app_assoc. reflexivity.
Qed.

Lemma split_from_word (cur w s : str) :
  forallb not_space w = true ->
  split_from cur (w ++ s) = split_from (cur ++ w) s.
Proof.
  revert cur. induction w as [|c w IH]; intros cur Hw; simpl.
  - now rewrite app_nil_r.
  - simpl in Hw. apply andb_true_iff in Hw as [Hc Hw].
    unfold not_space in Hc. apply negb_true_iff in Hc. rewrite Hc.
    rewrite IH by exact Hw. now rewrite <- app_assoc.
Qed.

Lemma split_join (ws : list str) :
  Forall (fun w => w <> [] /\ forallb not_space w = true) ws ->
  split (join ws) = ws.
Proof.
  unfold split. induction 1 as [|w ws [Hne Hw] Hws IH].
  - reflexivity.
  - destruct ws as [|w' ws].
    + simpl. rewrite <- (app_nil_r w) at 1. rewrite split_from_word by exact Hw.
      simpl. destruct w; [contradiction | reflexivity].
    + change (join (w :: w' :: ws)) with (w ++ " "%char :: join (w' :: ws)).
      rewrite split_from_word by exact Hw. cbn [split_from app].
      change (in_class space " "%char) with true. cbv iota.
      rewrite IH. destruct w; [contradiction | reflexivity].
Qed.

Lemma lower_join (ws : list str) : lower (join ws) = join (map lower ws).
Proof.
  induction ws as [|w [|w' ws] IH].
  - reflexivity.
  - reflexivity.
  - change (join (w :: w' :: ws)) with (w ++ " "%char :: join (w' :: ws)).
    transitivity (lower w ++ " "%char :: lower (join (w' :: ws))).
    + unfold lower. rewrite map_app. reflexivity.
    + rewrite IH. reflexivity.
Qed.

Lemma split_lower_stable (cur s : str) :
  lower cur = cur -> lower s = s ->
  Forall (fun w => lower w = w) (split_from cur s).
Proof.
  revert cur. induction s as [|c s IH]; intros cur Hcur Hs; simpl.
  - destruct cur; simpl; constructor; [exact Hcur | constructor].
  - injection Hs as Hc Hs. fold (lower s) in Hs.
    destruct (in_class space c).
    + specialize (IH [] eq_refl Hs).
      destruct cur; simpl; [exact IH | constructor; [exact Hcur | exact IH]].
    + apply IH; [| exact Hs]. unfold lower. rewrite map_app. simpl.
      fold (lower cur). now rewrite Hcur, Hc.
Qed.

Lemma lower_spaces (s : str) :
  forallb (in_class space) s = true -> forallb (in_class space) (lower s) = true.
Proof.
  unfold lower. induction s as [|c s IH]; simpl; [reflexivity |].
  intros H. apply andb_true_iff in H as [Hc Hs].
  now rewrite lower_char_space, Hc, IH.
Qed.

(** X9: the tokens of a query are non-empty, free of whitespace and
    already lower-cased; put together they are the lower-cased query
    without its whitespace, so no character is lost or invented. *)
Theorem tokenize_words (query : str) :
  Forall (fun w => w <> [] /\ forallb not_space w = true /\ lower w = w)
         (tokenize query) /\
  concat (tokenize query) = List.filter not_space (lower query).
Proof.
  unfold tokenize, split. split.
  - pose proof (split_from_words [] (lower query) eq_refl) as H1.
    pose proof (split_lower_stable [] (lower query) eq_refl (lower_idempotent query)) as H2.
    rewrite List.Forall_forall in *. intros w Hw.
    destruct (H1 w Hw) as [Ha Hb]. auto.
  - apply split_from_concat.
Qed.

(** X10: tokenizing is insensitive to letter case and to the amount of
    whitespace: the tokens joined by single blanks tokenize to the same
    tokens, as does the lower-cased query, and a query of whitespace only
    has no tokens. *)
Theorem tokenize_normal_form (query : str) :
  tokenize (join (tokenize query)) = tokenize query /\
  tokenize (lower query) = tokenize query /\
  (forallb (in_class space) query = true -> tokenize query = []).
Proof.
  destruct (tokenize_words query) as [Hw _]. split; [| split].
  - unfold tokenize at 1. rewrite lower_join.
    replace (map lower (tokenize query)) with (tokenize query).
    + apply split_join. eapply List.Forall_impl; [| exact Hw]. simpl. tauto.
    + symmetry. rewrite <- (map_id (tokenize query)) at 2.
      apply List.map_ext_in. intros w Hin.
      rewrite List.Forall_forall in Hw. now apply Hw.
  - unfold tokenize. now rewrite lower_idempotent.
  - intros Hsp. unfold tokenize, split.
    apply lower_spaces in Hsp. clear Hw.
    induction (lower query) as [|c s IH]; simpl in *; [reflexivity |].
    apply andb_true_iff in Hsp as [Hc Hs]. rewrite Hc. simpl. now apply IH.
Qed.

Lemma tokenize_normal_form_witness :
  tokenize (of_string "  ") = [].
Proof.
  apply (tokenize_normal_form (of_string "  ")). reflexivity.
Defined.

Example tokenize_query :
  tokenize (of_string "  Sprachassistent  FUNKTIONIERT nicht ")
  = map of_string ["sprachassistent"; "funktioniert"; "nicht"]%string.
Proof. reflexivity. Qed.

End TokenizerFacts.

(** ** The sources shown with an answer *)

Module RagPostFacts.
Import Text Relevance RagPost.
Local Open Scope Q_scope.

Lemma starts_with_app (needle rest : str) : starts_with needle (needle ++ rest) = true.
Proof.
  induction needle as [|c n IH]; simpl; [reflexivity |].
  now rewrite Ascii.eqb_refl, IH.
Qed.

Lemma starts_with_split (needle hay : str) :
  starts_with needle hay = true -> exists rest, hay = needle ++ rest.
Proof.
  revert hay. induction needle as [|c n IH]; intros hay H.
  - now exists hay.
  - destruct hay as [|b h]; simpl in H; [discriminate |].
    apply andb_true_iff in H as [Hc Hn]. apply Ascii.eqb_eq in Hc as ->.
    destruct (IH h Hn) as [rest ->]. now exists rest.
Qed.

Lemma contains_unfold (needle hay : str) :
  contains needle hay =
  starts_with needle hay ||
  match hay with
  | [] => false
  | _ :: h => contains needle h
  end.
Proof. destruct hay; reflexivity. Qed.

Lemma contains_spec (needle hay : str) :
  contains needle hay = true <-> exists pre post, hay = pre ++ needle ++ post.
Proof.
  split.
  - induction hay as [|c h IH]; simpl; intros H.
    + rewrite orb_false_r in H. destruct (starts_with_split _ _ H) as [rest ->].
      now exists [], rest.
    + apply orb_true_iff in H as [H | H].
      * destruct (starts_with_split _ _ H) as [rest ->]. now exists [], rest.
      * destruct (IH H) as (pre & post & ->). now exists (c :: pre), post.
  - intros (pre & post & ->). induction pre as [|c pre IH].
    + rewrite app_nil_l, contains_unfold, starts_with_app. reflexivity.
    + rewrite contains_unfold. cbn [app]. rewrite IH. apply orb_true_r.
Qed.

Lemma lower_app_inv (s x y z : str) :
  lower s = x ++ y ++ z ->
  exists a b c, s = a ++ b ++ c /\ lower a = x /\ lower b = y /\ lower c = z.
Proof.
  unfold lower. intros H.
  apply map_eq_app in H as (a & r & -> & Ha & Hr).
  apply map_eq_app in Hr as (b & c & -> & Hb & Hc).
  now exists a, b, c.
Qed.

(** X11: the sources shown with an answer are hidden exactly when the
    answer contains the phrase "liegt nicht vor" in any letter case;
    otherwise they are the retrieved sources with a score of at least
    0.015, in retrieval order. *)
Theorem shown_sources_spec (answer : str) (sources : list EvidenceItem) :
  let hidden := exists pre mid post,
    answer = pre ++ mid ++ post /\ lower mid = Composer.refusal_phrase in
  (hidden -> shown_sources answer sources = []) /\
  (~ hidden ->
     shown_sources answer sources = relevant_sources MIN_RELEVANCE_SCORE sources) /\
  sublist (shown_sources answer sources) sources /\
  Forall (fun s => MIN_RELEVANCE_SCORE <= fused_score s) (shown_sources answer sources).
Proof.
  cbv zeta.
  assert (Hiff : Composer.refuses answer = true <->
                 exists pre mid post,
                   answer = pre ++ mid ++ post /\ lower mid = Composer.refusal_phrase).
  { unfold Composer.refuses. rewrite contains_spec. split.
    - intros (x & z & H). apply lower_app_inv in H as (a & b & c & -> & _ & Hb & _).
      now exists a, b, c.
    - intros (a & b & c & -> & Hb). exists (lower a), (lower c).
      unfold lower in *. now rewrite !map_app, Hb. }
  unfold shown_sources, post_process.
  destruct (Composer.refuses answer) eqn:E.
  - split; [reflexivity | split; [| split]].
    + intros Hn. exfalso. apply Hn, Hiff. reflexivity.
    + apply sublist_nil_l.
    + constructor.
  - split; [| split; [reflexivity | split]].
    + intros H. apply Hiff in H. discriminate.
    + apply RelevanceFacts.relevant_sources_sublist.
    + apply RelevanceFacts.relevant_sources_above.
Qed.

Lemma shown_sources_spec_witness :
  shown_sources (of_string "Diese Information LIEGT NICHT VOR.")
    [ {| document_id := "fb_1"; text_snippet := []; fused_score := 1 # 61;
         metadata := [] |} ] = [].
Proof.
  apply (shown_sources_spec (of_string "Diese Information LIEGT NICHT VOR.")).
  exists (of_string "Diese Information "), (of_string "LIEGT NICHT VOR"), (of_string ".").
  split; reflexivity.
Defined.

Example guard_answer_is_not_a_refusal_phrase :
  Composer.refuses Composer.refusal_answer = false.
Proof. reflexivity. Qed.

End RagPostFacts.

(** ** Sorted statistics and bar widths *)

Module ChartsFacts.
Import Text Charts.
Local Open Scope Q_scope.

Lemma by_count_desc_total (a b : str * Q) :
  by_count_desc a b = true \/ by_count_desc b a = true.
Proof.
  unfold by_count_desc. rewrite !Qle_bool_iff.
  destruct (Qlt_le_dec (snd a) (snd b)); [right; lra | left; lra].
Qed.

Lemma by_count_desc_trans (a b c : str * Q) :
  Ordering.holds by_count_desc a b -> Ordering.holds by_count_desc b c ->
  Ordering.holds by_count_desc a c.
Proof.
  unfold Ordering.holds, by_count_desc. rewrite !Qle_bool_iff. lra.
Qed.

Lemma strongly_sorted_app {A : Type} (R : A -> A -> Prop) (l1 l2 : list A) :
  StronglySorted R (l1 ++ l2) ->
  StronglySorted R l1 /\ StronglySorted R l2 /\
  (forall x y, In x l1 -> In y l2 -> R x y).
Proof.
  induction l1 as [|a l1 IH]; simpl; intros H.
  - split; [constructor | split; [exact H | intros x y []]].
  - inversion H as [|? ? Hs Hall]; subst.
    destruct (IH Hs) as (H1 & H2 & H3).
    rewrite List.Forall_forall in Hall.
    split; [| split; [exact H2 |]].
    + constructor; [exact H1 |]. apply List.Forall_forall.
      intros x Hx. apply Hall, in_or_app. now left.
    + intros x y [<- | Hx] Hy.
      * apply Hall, in_or_app. now right.
      * now apply H3.
Qed.

(** X12: the entries shown by a chart that sorts by count and keeps the
    first [n] are [min n (number of entries)] of the given entries, in
    descending order of count, and no entry left out has a larger count
    than one that is shown. *)
Theorem top_entries_spec (n : nat) (es : entries) :
  length (top n es) = Nat.min n (length es) /\
  Permutation es (top n es ++ rest n es) /\
  StronglySorted (fun a b => snd b <= snd a) (top n es) /\
  (forall shown hidden, In shown (top n es) -> In hidden (rest n es) ->
     snd hidden <= snd shown).
Proof.
  unfold top, rest.
  pose proof (OrderingFacts.sort_perm by_count_desc es) as Hperm.
  pose proof (OrderingFacts.sort_strongly_sorted by_count_desc
                by_count_desc_total by_count_desc_trans es) as Hsorted.
  fold (sort_desc es) in Hperm, Hsorted.
  rewrite <- (firstn_skipn n (sort_desc es)) in Hsorted.
  apply strongly_sorted_app in Hsorted as (H1 & _ & H3).
  split; [| split; [| split]].
  - rewrite length_firstn. now rewrite (Permutation_length Hperm).
  - rewrite firstn_skipn. now symmetry.
  - clear H3. induction H1 as [|a l Hs IH Hall]; constructor; [exact IH |].
    eapply List.Forall_impl; [| exact Hall].
    intros b Hb. now apply Qle_bool_iff.
  - intros shown hidden Hs Hh. now apply Qle_bool_iff, H3.
Qed.

Example top_categories :
  top 2 [(of_string "CLIMATE", 3); (of_string "NAVIGATION", 7);
         (of_string "SOFTWARE_BUG", 3); (of_string "INFOTAINMENT", 1)]
  = [(of_string "NAVIGATION", 7); (of_string "CLIMATE", 3)].
Proof. reflexivity. Qed.

Import Dashboard.




Example bar_width_without_total :
  bar_width (Some {| total := Some 0;
                     by_source_type := Some {[ "voice"%string := 20 ]} |}) "voice"
  = Finite (20 / 1 * 100).
Proof. reflexivity. Qed.

End ChartsFacts.

(** ** The feedback list page *)

Module FeedbacksFacts.
Import Text Feedbacks.

Lemma filter_field_spec (field : FeedbackItem -> str) (f : option str)
    (l : list FeedbackItem) (fb : FeedbackItem) :
  In fb (filter_field field f l) <->
  In fb l /\ (chosen f = None \/ chosen f = Some (field fb)).
Proof.
  unfold filter_field. destruct (chosen f) as [v|].
  - rewrite List.filter_In, bool_decide_eq_true. split.
    + intros [H ->]. auto.
    + intros [H [E | E]]; [discriminate | injection E as ->; auto].
  - tauto.
Qed.

Lemma filter_sublist {A : Type} (p : A -> bool) (l : list A) :
  sublist (List.filter p l) l.
Proof.
  induction l as [|x l IH]; simpl.
  - constructor.
  - destruct (p x); now constructor.
Qed.

Lemma filter_field_sublist (field : FeedbackItem -> str) (f : option str)
    (l : list FeedbackItem) :
  sublist (filter_field field f l) l.
Proof.
  unfold filter_field. destruct (chosen f); [apply filter_sublist | reflexivity].
Qed.

Lemma filter_sublist_impl {A : Type} (p q : A -> bool) (l : list A) :
  (forall x, p x = true -> q x = true) ->
  sublist (List.filter p l) (List.filter q l).
Proof.
  intros H. induction l as [|x l IH]; simpl.
  - constructor.
  - destruct (p x) eqn:E.
    + rewrite (H x E). now constructor.
    + destruct (q x); [now constructor | exact IH].
Qed.

(** X14: the list shown after filtering keeps the order of the loaded
    feedbacks and holds exactly those that pass every active filter: the
    search text occurs in the text or the id without regard to letter
    case, and source type, model and market equal the chosen values; an
    empty search and an unset or empty choice filter nothing. *)
Theorem filterData_spec (feedbacks : list FeedbackItem) (search : str)
    (filterType filterModel filterMarket : option str) :
  sublist (filterData feedbacks search filterType filterModel filterMarket) feedbacks /\
  (forall fb,
     In fb (filterData feedbacks search filterType filterModel filterMarket) <->
     In fb feedbacks /\
     (search = [] \/ matches_search search fb = true) /\
     (chosen filterType = None \/ chosen filterType = Some (source_type fb)) /\
     (chosen filterModel = None \/ chosen filterModel = Some (vehicle_model fb)) /\
     (chosen filterMarket = None \/ chosen filterMarket = Some (market fb))) /\
  filterData feedbacks [] None None None = feedbacks.
Proof.
  unfold filterData. cbv zeta. split; [| split].
  - repeat (etransitivity; [apply filter_field_sublist |]).
    destruct (truthy search); [apply filter_sublist | reflexivity].
  - intros fb. rewrite !filter_field_spec.
    destruct search as [|c s]; simpl truthy; cbv iota.
    + intuition discriminate.
    + rewrite List.filter_In. intuition discriminate.
  - reflexivity.
Qed.

Lemma firstn_add {A : Type} (a b : nat) (l : list A) :
  firstn (a + b) l = firstn a l ++ firstn b (skipn a l).
Proof.
  revert l. induction a as [|a IH]; intros l; simpl.
  - reflexivity.
  - destruct l as [|x l]; simpl.
    + now destruct b.
    + now rewrite IH.
Qed.

Lemma pages_concat (filtered : list FeedbackItem) (n : nat) :
  concat (map (paginatedFeedbacks filtered) (seq 1 n)) = firstn (n * itemsPerPage) filtered.
Proof.
  induction n as [|n IH].
  - reflexivity.
  - rewrite seq_S, map_app, concat_app, IH. simpl map. simpl concat.
    rewrite app_nil_r. unfold paginatedFeedbacks, slice.
    replace (S n - 1) with n by lia.
    replace (S n * itemsPerPage - n * itemsPerPage) with itemsPerPage by lia.
    replace (S n * itemsPerPage) with (n * itemsPerPage + itemsPerPage) by lia.
    now rewrite firstn_add.
Qed.

Lemma page_length (filtered : list FeedbackItem) (page : nat) :
  length (paginatedFeedbacks filtered page) =
  Nat.min (page * itemsPerPage - (page - 1) * itemsPerPage)
          (length filtered - (page - 1) * itemsPerPage).
Proof.
  unfold paginatedFeedbacks, slice. now rewrite length_firstn, length_skipn.
Qed.

(** X15: the pages 1 .. totalPages put one after the other are the
    filtered list; every page before the last holds 15 entries, the last
    between 1 and 15, and a page beyond the last none; there is no page
    exactly when the list is empty. *)
Theorem pagination_partition (filtered : list FeedbackItem) :
  let n := totalPages filtered in
  concat (map (paginatedFeedbacks filtered) (seq 1 n)) = filtered /\
  (forall page, 1 <= page < n -> length (paginatedFeedbacks filtered page) = 15) /\
  (filtered <> [] -> 1 <= length (paginatedFeedbacks filtered n) <= 15) /\
  (forall page, n < page -> paginatedFeedbacks filtered page = []) /\
  (n = 0 <-> filtered = []).
Proof.
  cbv zeta.
  assert (Hn : 15 * totalPages filtered <= length filtered + 14 /\
               length filtered + 14 < 15 * totalPages filtered + 15).
  { unfold totalPages, itemsPerPage. simpl Nat.sub.
    pose proof (Nat.div_mod_eq (length filtered + 14) 15) as E.
    pose proof (Nat.mod_upper_bound (length filtered + 14) 15 ltac:(lia)) as U.
    lia. }
  assert (Hnil : filtered = [] <-> length filtered = 0).
  { split; [intros ->; reflexivity | apply length_zero_iff_nil]. }
  split; [| split; [| split; [| split]]].
  - rewrite pages_concat. apply firstn_all2. unfold itemsPerPage. lia.
  - intros page Hp. rewrite page_length. unfold itemsPerPage. lia.
  - intros Hne. rewrite page_length. unfold itemsPerPage.
    assert (length filtered <> 0) by tauto. lia.
  - intros page Hp. apply length_zero_iff_nil. rewrite page_length.
    unfold itemsPerPage. lia.
  - rewrite Hnil. lia.
Qed.

Lemma pagination_partition_witness :
  let fb := {| id := of_string "fb_1"; text := []; label := []; source_type := [];
               language := []; timestamp := []; vehicle_model := []; market := [] |} in
  paginatedFeedbacks (repeat fb 20) 3 = [].
Proof.
  cbv zeta.
  refine (proj1 (proj2 (proj2 (proj2 (pagination_partition (repeat _ 20))))) 3 _).
  vm_compute. lia.
Defined.

Example pagination_of_20 :
  let fb := {| id := of_string "fb_1"; text := []; label := []; source_type := [];
               language := []; timestamp := []; vehicle_model := []; market := [] |} in
  totalPages (repeat fb 20) = 2 /\
  length (paginatedFeedbacks (repeat fb 20) 1) = 15 /\
  length (paginatedFeedbacks (repeat fb 20) 2) = 5.
Proof. repeat split. Qed.

End FeedbacksFacts.

(** ** The problem cards of the dashboard *)

Module ProblemsFacts.
Import Text Feedbacks Problems.

Lemma keywords_nodup : NoDup keywords.
Proof. apply (bool_decide_unpack _). vm_compute. exact I. Qed.

Lemma entry_bump (kw' kw model : str) (tbl : table) :
  entry kw' (bump kw model tbl) =
  if bool_decide (kw = kw')
  then Some (record_hit model (default fresh (entry kw tbl)))
  else entry kw' tbl.
Proof.
  induction tbl as [|[k p] tbl IH]; cbn [bump entry].
  - reflexivity.
  - destruct (bool_decide_reflect (k = kw)) as [-> | Hk]; cbn [entry].
    + destruct (bool_decide (kw = kw')); reflexivity.
    + rewrite IH.
      destruct (bool_decide_reflect (kw = kw')) as [<- | Hkw].
      * rewrite bool_decide_eq_false_2 by exact Hk. reflexivity.
      * reflexivity.
Qed.

Lemma keys_bump (kw model : str) (tbl : table) :
  map fst (bump kw model tbl) =
  if decide (kw ∈ map fst tbl) then map fst tbl else map fst tbl ++ [kw].
Proof.
  induction tbl as [|[k p] tbl IH]; cbn [bump map fst].
  - destruct (decide (kw ∈ [])) as [H | H]; [inversion H | reflexivity].
  - destruct (bool_decide_reflect (k = kw)) as [-> | Hk]; cbn [map fst].
    + rewrite decide_True by constructor. reflexivity.
    + rewrite IH. destruct (decide (kw ∈ map fst tbl)) as [H | H].
      * rewrite decide_True by now constructor. reflexivity.
      * rewrite decide_False; [reflexivity |].
        intros H'. apply elem_of_cons in H' as [-> | H']; contradiction.
Qed.

Lemma keys_bump_nodup (kw model : str) (tbl : table) :
  NoDup (map fst tbl) -> NoDup (map fst (bump kw model tbl)).
Proof.
  intros H. rewrite keys_bump. destruct (decide (kw ∈ map fst tbl)) as [Hin | Hin].
  - exact H.
  - apply NoDup_app. split; [exact H | split].
    + intros x Hx Hx'. apply list_elem_of_singleton in Hx' as ->. contradiction.
    + apply NoDup_singleton.
Qed.

Lemma live_bump (kw model : str) (tbl : table) : live tbl -> live (bump kw model tbl).
Proof.
  intros H kw' p. rewrite entry_bump.
  destruct (bool_decide (kw = kw')).
  - intros [= <-]. simpl. lia.
  - apply H.
Qed.

Section OneFeedback.
Variable fb : FeedbackItem.

Lemma note_fold_keys (kws : list str) (tbl : table) :
  NoDup (map fst tbl) -> NoDup (map fst (fold_left (note fb) kws tbl)).
Proof.
  revert tbl. induction kws as [|k kws IH]; intros tbl H; cbn [fold_left].
  - exact H.
  - apply IH. unfold note. destruct (hit k fb); [now apply keys_bump_nodup | exact H].
Qed.

Lemma note_fold_live (kws : list str) (tbl : table) :
  live tbl -> live (fold_left (note fb) kws tbl).
Proof.
  revert tbl. induction kws as [|k kws IH]; intros tbl H; cbn [fold_left].
  - exact H.
  - apply IH. unfold note. destruct (hit k fb); [now apply live_bump | exact H].
Qed.

Lemma note_fold_other (kws : list str) (tbl : table) (kw : str) :
  kw ∉ kws \/ hit kw fb = false ->
  entry kw (fold_left (note fb) kws tbl) = entry kw tbl.
Proof.
  revert tbl. induction kws as [|k kws IH]; intros tbl H; cbn [fold_left].
  - reflexivity.
  - rewrite IH.
    + unfold note. destruct (hit k fb) eqn:E; [| reflexivity].
      rewrite entry_bump. destruct (bool_decide_reflect (k = kw)) as [-> | Hk].
      * destruct H as [H | H]; [| congruence]. exfalso. apply H. constructor.
      * reflexivity.
    + destruct H as [H | H]; [left | now right].
      intros H'. apply H. now constructor.
Qed.

Lemma note_fold_hit (kws : list str) (tbl : table) (kw : str) :
  NoDup kws -> kw ∈ kws -> hit kw fb = true ->
  entry kw (fold_left (note fb) kws tbl) =
  Some (record_hit (vehicle_model fb) (default fresh (entry kw tbl))).
Proof.
  revert tbl. induction kws as [|k kws IH]; intros tbl Hnd Hin Hhit; cbn [fold_left].
  - inversion Hin.
  - apply NoDup_cons in Hnd as [Hk Hnd].
    destruct (decide (kw = k)) as [-> | Hne].
    + rewrite note_fold_other by now left.
      unfold note. rewrite Hhit, entry_bump.
      now rewrite bool_decide_eq_true_2.
    + apply elem_of_cons in Hin as [-> | Hin]; [contradiction |].
      rewrite IH by assumption. unfold note.
      destruct (hit k fb); [| reflexivity].
      rewrite entry_bump, bool_decide_eq_false_2 by congruence. reflexivity.
Qed.

End OneFeedback.

Lemma scan_entry (tbl : table) (fb : FeedbackItem) (kw : str) :
  kw ∈ keywords ->
  default fresh (entry kw (scan_feedback tbl fb)) =
  if hit kw fb then record_hit (vehicle_model fb) (default fresh (entry kw tbl))
  else default fresh (entry kw tbl).
Proof.
  intros Hin. unfold scan_feedback. destruct (hit kw fb) eqn:E.
  - now rewrite (note_fold_hit fb keywords tbl kw keywords_nodup Hin E).
  - now rewrite note_fold_other by now right.
Qed.

Lemma table_entry (feedbacks : list FeedbackItem) (tbl : table) (kw : str) :
  kw ∈ keywords ->
  default fresh (entry kw (fold_left scan_feedback feedbacks tbl)) =
  tally kw (default fresh (entry kw tbl)) feedbacks.
Proof.
  intros Hin. revert tbl. unfold tally.
  induction feedbacks as [|fb fbs IH]; intros tbl; cbn [fold_left].
  - reflexivity.
  - now rewrite IH, scan_entry.
Qed.

Lemma table_entry_other (feedbacks : list FeedbackItem) (tbl : table) (kw : str) :
  kw ∉ keywords ->
  entry kw (fold_left scan_feedback feedbacks tbl) = entry kw tbl.
Proof.
  intros Hin. revert tbl.
  induction feedbacks as [|fb fbs IH]; intros tbl; cbn [fold_left].
  - reflexivity.
  - rewrite IH. unfold scan_feedback. apply note_fold_other. now left.
Qed.

Lemma table_live (feedbacks : list FeedbackItem) (tbl : table) :
  live tbl -> live (fold_left scan_feedback feedbacks tbl).
Proof.
  revert tbl. induction feedbacks as [|fb fbs IH]; intros tbl H; cbn [fold_left].
  - exact H.
  - apply IH. now apply note_fold_live.
Qed.

Lemma table_keys (feedbacks : list FeedbackItem) (tbl : table) :
  NoDup (map fst tbl) -> NoDup (map fst (fold_left scan_feedback feedbacks tbl)).
Proof.
  revert tbl. induction feedbacks as [|fb fbs IH]; intros tbl H; cbn [fold_left].
  - exact H.
  - apply IH. now apply note_fold_keys.
Qed.

Lemma entry_in (kw : str) (p : Problem) (tbl : table) :
  entry kw tbl = Some p -> In (kw, p) tbl.
Proof.
  induction tbl as [|[k q] tbl IH]; cbn [entry]; [discriminate |].
  destruct (bool_decide_reflect (k = kw)) as [-> | Hk].
  - intros [= ->]. now left.
  - intros H. right. now apply IH.
Qed.

Lemma in_entry (kw : str) (p : Problem) (tbl : table) :
  NoDup (map fst tbl) -> In (kw, p) tbl -> entry kw tbl = Some p.
Proof.
  induction tbl as [|[k q] tbl IH]; cbn [entry map fst]; [intros _ [] |].
  intros Hnd [E | Hin].
  - injection E as -> ->. now rewrite bool_decide_eq_true_2.
  - apply NoDup_cons in Hnd as [Hk Hnd].
    rewrite bool_decide_eq_false_2; [now apply IH |].
    intros ->. apply Hk. apply list_elem_of_In.
    now apply (List.in_map fst) in Hin.
Qed.

Lemma set_add_spec (m x : str) (ms : list str) :
  x ∈ set_add m ms <-> x = m \/ x ∈ ms.
Proof.
  unfold set_add. destruct (decide (m ∈ ms)) as [H | H].
  - split; [now right | intros [-> | H']; assumption].
  - rewrite elem_of_app, list_elem_of_singleton. tauto.
Qed.

Lemma set_add_nodup (m : str) (ms : list str) : NoDup ms -> NoDup (set_add m ms).
Proof.
  intros Hnd. unfold set_add. destruct (decide (m ∈ ms)) as [H | H]; [exact Hnd |].
  apply NoDup_app. split; [exact Hnd | split].
  - intros x Hx Hx'. apply list_elem_of_singleton in Hx' as ->. contradiction.
  - apply NoDup_singleton.
Qed.

Lemma tally_step (kw : str) (fb : FeedbackItem) (feedbacks : list FeedbackItem)
    (p : Problem) :
  tally kw p (fb :: feedbacks) =
  tally kw (if hit kw fb then record_hit (vehicle_model fb) p else p) feedbacks.
Proof. reflexivity. Qed.

Lemma record_hit_models (model m : str) (p : Problem) :
  m ∈ models (record_hit model p) <-> m ∈ models p \/ (m <> [] /\ model = m).
Proof.
  cbn [record_hit models]. destruct model as [|c v]; cbn [truthy].
  - split; [now left | intros [H | [H1 H2]]; [exact H | congruence]].
  - rewrite set_add_spec. split.
    + intros [-> | H]; [right; split; [discriminate | reflexivity] | now left].
    + intros [H | [_ <-]]; [now right | now left].
Qed.

Lemma tally_spec (kw : str) (feedbacks : list FeedbackItem) (p : Problem) :
  count (tally kw p feedbacks) = count p + length (hits kw feedbacks) /\
  (forall m, m ∈ models (tally kw p feedbacks) <->
             m ∈ models p \/
             (m <> [] /\ exists fb, In fb feedbacks /\ hit kw fb = true /\
                                    vehicle_model fb = m)) /\
  (NoDup (models p) -> NoDup (models (tally kw p feedbacks))).
Proof.
  revert p. induction feedbacks as [|fb fbs IH]; intros p.
  - split; [simpl; lia | split; [| auto]].
    intros m. split; [auto | intros [H | (_ & fb & [] & _)]; exact H].
  - rewrite tally_step.
    destruct (IH (if hit kw fb then record_hit (vehicle_model fb) p else p))
      as (Hc & Hm & Hn). clear IH.
    unfold hits in *. cbn [List.filter].
    destruct (hit kw fb) eqn:E.
    + split; [| split].
      * rewrite Hc. simpl. lia.
      * intros m. rewrite Hm, record_hit_models. split.
        -- intros [[H | [Hne Hv]] | (Hne & fb' & Hin & Hh & Hv)].
           ++ now left.
           ++ right. split; [exact Hne |]. exists fb. split; [now left | auto].
           ++ right. split; [exact Hne |]. exists fb'. split; [now right | auto].
        -- intros [H | (Hne & fb' & [<- | Hin] & Hh & Hv)].
           ++ left. now left.
           ++ left. right. auto.
           ++ right. split; [exact Hne |]. now exists fb'.
      * intros Hnd. apply Hn. cbn [record_hit models].
        destruct (truthy (vehicle_model fb)); [now apply set_add_nodup | exact Hnd].
    + split; [exact Hc | split; [| exact Hn]].
      intros m. rewrite Hm. split.
      * intros [H | (Hne & fb' & Hin & Hh & Hv)]; [now left |].
        right. split; [exact Hne |]. exists fb'. split; [now right | auto].
      * intros [H | (Hne & fb' & [<- | Hin] & Hh & Hv)]; [now left | congruence |].
        right. split; [exact Hne |]. now exists fb'.
Qed.

Lemma live_nil : live [].
Proof. intros kw p H. discriminate. Qed.

Lemma table_lookup (feedbacks : list FeedbackItem) (kw : str) (p : Problem) :
  In (kw, p) (problemKeywords feedbacks) ->
  kw ∈ keywords /\ p = tally kw fresh feedbacks /\ 1 <= count p.
Proof.
  intros Hin. unfold problemKeywords in *.
  apply in_entry in Hin; [| apply table_keys; constructor].
  pose proof (table_live feedbacks [] live_nil kw p Hin) as Hlive.
  destruct (decide (kw ∈ keywords)) as [Hk | Hk].
  - pose proof (table_entry feedbacks [] kw Hk) as E. rewrite Hin in E.
    simpl in E. auto.
  - rewrite table_entry_other in Hin by exact Hk. discriminate.
Qed.

Lemma join_comma_empty (ws : list str) :
  Forall (fun w => w <> []) ws -> join_comma ws = [] -> ws = [].
Proof.
  intros H. destruct H as [|w ws Hw Hws]; [reflexivity |].
  destruct w; [contradiction |]. destruct ws; discriminate.
Qed.

(** X16: a problem card stands for one of the nine keywords; its count is
    the number of loaded feedbacks whose text contains the keyword
    without regard to letter case, which is at least one; its models are
    the distinct non-empty models of those feedbacks, and the badge reads
    "Alle Modelle" when none of them names a model.  Every keyword with a
    matching feedback has exactly one entry. *)
Theorem problem_table_spec (feedbacks : list FeedbackItem) :
  NoDup (map fst (problemKeywords feedbacks)) /\
  (forall kw, In kw keywords -> hits kw feedbacks <> [] ->
     exists p, In (kw, p) (problemKeywords feedbacks)) /\
  (forall kw p, In (kw, p) (problemKeywords feedbacks) ->
     In kw keywords /\
     count p = length (hits kw feedbacks) /\ 1 <= count p /\
     NoDup (models p) /\
     (forall m, In m (models p) <->
        m <> [] /\ exists fb, In fb feedbacks /\ hit kw fb = true /\
                              vehicle_model fb = m) /\
     (models p = [] -> card_models p = of_string "Alle Modelle") /\
     (models p <> [] -> card_models p = join_comma (firstn 2 (models p)))).
Proof.
  split; [apply table_keys; constructor | split].
  - intros kw Hk Hh. apply list_elem_of_In in Hk.
    pose proof (table_entry feedbacks [] kw Hk) as E. fold (problemKeywords feedbacks) in E.
    destruct (tally_spec kw feedbacks fresh) as (Hc & _).
    destruct (entry kw (problemKeywords feedbacks)) as [p|] eqn:Ep.
    + exists p. now apply entry_in.
    + exfalso. simpl in E. rewrite <- E in Hc. simpl in Hc.
      destruct (hits kw feedbacks); [congruence | discriminate].
  - intros kw p Hin. destruct (table_lookup feedbacks kw p Hin) as (Hk & -> & Hpos).
    destruct (tally_spec kw feedbacks fresh) as (Hc & Hm & Hn).
    specialize (Hn (NoDup_nil_2)).
    assert (Hne : Forall (fun w => w <> []) (models (tally kw fresh feedbacks))).
    { apply List.Forall_forall. intros m Hm'. apply list_elem_of_In, Hm in Hm'.
      destruct Hm' as [H | [H _]]; [inversion H | exact H]. }
    split; [now apply list_elem_of_In | split; [exact Hc | split; [exact Hpos |]]].
    split; [exact Hn | split; [| split]].
    + intros m. rewrite <- list_elem_of_In, Hm. split.
      * intros [H | H]; [inversion H | exact H].
      * auto.
    + intros E. unfold card_models. now rewrite E.
    + intros E. unfold card_models.
      destruct (join_comma (firstn 2 (models (tally kw fresh feedbacks)))) eqn:J.
      * exfalso. apply join_comma_empty in J.
        -- destruct (models (tally kw fresh feedbacks)); [congruence | discriminate].
        -- now apply Forall_take.
      * reflexivity.
Qed.

Lemma problem_table_spec_witness :
  let fb := {| id := of_string "fb_1"; text := of_string "Das TOUCH-Display ruckelt";
               label := []; source_type := of_string "touch"; language := of_string "de";
               timestamp := []; vehicle_model := of_string "ID.4";
               market := of_string "DE" |} in
  exists p, In (of_string "Display", p) (problemKeywords [fb; fb]).
Proof.
  cbv zeta.
  refine (proj1 (proj2 (problem_table_spec _)) (of_string "Display") _ _).
  - vm_compute. tauto.
  - vm_compute. discriminate.
Defined.

Lemma by_problem_count_total (a b : str * Problem) :
  by_problem_count a b = true \/ by_problem_count b a = true.
Proof. unfold by_problem_count. rewrite !Nat.leb_le. lia. Qed.

Lemma by_problem_count_trans (a b c : str * Problem) :
  Ordering.holds by_problem_count a b -> Ordering.holds by_problem_count b c ->
  Ordering.holds by_problem_count a c.
Proof. unfold Ordering.holds, by_problem_count. rewrite !Nat.leb_le. lia. Qed.

Lemma filter_all {A : Type} (p : A -> bool) (l : list A) :
  (forall x, In x l -> p x = true) -> List.filter p l = l.
Proof.
  induction l as [|x l IH]; simpl; intros H; [reflexivity |].
  rewrite (H x) by now left. f_equal. apply IH. intros y Hy. apply H. now right.
Qed.

(** X17: the dashboard shows at most four problem cards, those with the
    most matching feedbacks in descending order; the [count > 0] filter
    removes nothing, and a keyword with matches that gets no card has no
    more matches than any keyword shown. *)
Theorem topProblems_spec (feedbacks : list FeedbackItem) :
  List.filter (fun e => 0 <? count (snd e)) (problemKeywords feedbacks)
    = problemKeywords feedbacks /\
  length (topProblems feedbacks) = Nat.min 4 (length (problemKeywords feedbacks)) /\
  StronglySorted (fun a b => count (snd b) <= count (snd a)) (topProblems feedbacks) /\
  (forall e, In e (topProblems feedbacks) -> In e (problemKeywords feedbacks)) /\
  (forall shown other, In shown (topProblems feedbacks) ->
     In other (problemKeywords feedbacks) -> ~ In other (topProblems feedbacks) ->
     count (snd other) <= count (snd shown)).
Proof.
  assert (Hf : List.filter (fun e => 0 <? count (snd e)) (problemKeywords feedbacks)
               = problemKeywords feedbacks).
  { apply filter_all. intros [kw p] Hin.
    destruct (table_lookup feedbacks kw p Hin) as (_ & _ & Hpos).
    apply Nat.ltb_lt. simpl. lia. }
  unfold topProblems. rewrite Hf. split; [reflexivity |].
  set (tbl := problemKeywords feedbacks).
  pose proof (OrderingFacts.sort_perm by_problem_count tbl) as Hperm.
  pose proof (OrderingFacts.sort_strongly_sorted by_problem_count
                by_problem_count_total by_problem_count_trans tbl) as Hsorted.
  rewrite <- (firstn_skipn 4 (Ordering.sort by_problem_count tbl)) in Hsorted.
  apply ChartsFacts.strongly_sorted_app in Hsorted as (H1 & _ & H3).
  split; [| split; [| split]].
  - rewrite length_firstn. now rewrite (Permutation_length Hperm).
  - clear H3. induction H1 as [|a l Hs IH Hall]; constructor; [exact IH |].
    eapply List.Forall_impl; [| exact Hall].
    intros b Hb. now apply Nat.leb_le.
  - intros e He. apply (Permutation_in _ Hperm).
    rewrite <- (firstn_skipn 4 (Ordering.sort by_problem_count tbl)).
    apply in_or_app. now left.
  - intros shown other Hs Ho Hno. apply Nat.leb_le. apply H3; [exact Hs |].
    apply (Permutation_in _ (Permutation_sym Hperm)) in Ho.
    rewrite <- (firstn_skipn 4 (Ordering.sort by_problem_count tbl)) in Ho.
    apply in_app_or in Ho as [Ho | Ho]; [contradiction | exact Ho].
Qed.

Lemma topProblems_spec_witness :
  let fb := {| id := of_string "fb_1"; text := of_string "Navigation und Bluetooth";
               label := []; source_type := []; language := []; timestamp := [];
               vehicle_model := []; market := [] |} in
  In (of_string "Navigation", {| count := 1; models := [] |}) (problemKeywords [fb]).
Proof.
  cbv zeta.
  refine (proj1 (proj2 (proj2 (proj2 (topProblems_spec _)))) _ _).
  vm_compute. tauto.
Defined.

Example topProblems_sample :
  let fb (t m : string) :=
    {| id := []; text := of_string t; label := []; source_type := [];
       language := []; timestamp := []; vehicle_model := of_string m; market := [] |} in
  map (fun e => (to_string (fst e), count (snd e), to_string (card_models (snd e))))
      (topProblems [fb "Touchscreen reagiert nicht" "ID.4";
                    fb "NAVIGATION falsch, Touch ok" "";
                    fb "Navigation langsam" "Golf 8"])
  = [("Touch", 2, "ID.4"); ("Navigation", 2, "Golf 8")]%string.
Proof. vm_compute. reflexivity. Qed.

(** X18: the link of a problem card carries the keyword as search text,
    and the list page opened with it shows, in order, every loaded
    feedback that the card counts; a link without a search parameter,
    such as a category card's [label] link, leaves the list unfiltered. *)
Theorem card_link_finds_counted (feedbacks : list FeedbackItem) (kw : str)
    (params : list (str * str)) :
  (kw <> [] ->
   sublist (hits kw feedbacks) (filterData feedbacks kw None None None)) /\
  (get (of_string "search") params = Some kw ->
   filterData feedbacks (initial_search params) None None None
   = filterData feedbacks kw None None None) /\
  (get (of_string "search") params = None ->
   filterData feedbacks (initial_search params) None None None = feedbacks).
Proof.
  split; [| split].
  - intros Hne. unfold filterData, hits, filter_field. cbn [chosen].
    destruct kw as [|c kw]; [contradiction |]. cbn [truthy].
    apply FeedbacksFacts.filter_sublist_impl.
    intros fb H. unfold matches_search, hit in *. now rewrite H.
  - intros E. unfold initial_search. now rewrite E.
  - intros E. unfold initial_search. rewrite E. reflexivity.
Qed.

Lemma card_link_finds_counted_witness :
  let fb := {| id := of_string "fb_1"; text := of_string "Das TOUCH-Display ruckelt";
               label := []; source_type := of_string "touch"; language := of_string "de";
               timestamp := []; vehicle_model := of_string "ID.4";
               market := of_string "DE" |} in
  filterData [fb] (initial_search [(of_string "label", of_string "NAVIGATION")])
             None None None = [fb].
Proof.
  cbv zeta.
  refine (proj2 (proj2 (card_link_finds_counted _ [] _)) _).
  reflexivity.
Defined.

End ProblemsFacts.

(** ** The upload handler and the PII preview *)

Module UploadFacts.
Import Upload.

Lemma ticks_progress (n : nat) : Nat.iter n tick 0 = Nat.min (10 * n) 90.
Proof.
  induction n as [|n IH].
  - reflexivity.
  - rewrite Nat.iter_succ, IH. unfold tick.
    destruct (Nat.leb_spec 90 (Nat.min (10 * n) 90)); lia.
Qed.

(** X19: an upload without a chosen file changes nothing.  With a file
    the handler always ends with [uploading] off and a result, which is a
    success exactly when the server answered with a readable success
    reply; the progress bar ends at 100 unless the request itself failed,
    and while the request is pending it climbs in steps of 10 and stops
    at 90. *)
Theorem handleUpload_outcome (st : State) (ticks : nat) (r : response) :
  (file st = false -> handleUpload st ticks r = st) /\
  (file st = true ->
   let st' := handleUpload st ticks r in
   uploading st' = false /\
   (exists res, result st' = Some res /\
      (success res = true <-> exists p n, r = Ok p n) /\
      (success res = false -> processed res = 0)) /\
   (r <> NetworkError -> progress st' = 100) /\
   (r = NetworkError -> progress st' = Nat.min (10 * ticks) 90) /\
   (forall p n, r = Ok p n -> p <> Some [] -> p <> None -> Some (piiMatches st') = p) /\
   ((forall p n, r <> Ok p n) -> piiMatches st' = [])).
Proof.
  unfold handleUpload. split.
  - intros ->. reflexivity.
  - intros ->. cbn [negb]. cbv zeta. rewrite ticks_progress.
    destruct r as [| |p n]; cbn.
    + split; [reflexivity |]. split.
      * eexists. split; [reflexivity |]. split; [| reflexivity].
        split; [discriminate | intros (p & n & H); discriminate].
      * split; [congruence |]. split; [reflexivity |]. split; [discriminate | reflexivity].
    + split; [reflexivity |]. split.
      * eexists. split; [reflexivity |]. split; [| reflexivity].
        split; [discriminate | intros (p & n & H); discriminate].
      * split; [reflexivity |]. split; [discriminate |]. split; [discriminate | reflexivity].
    + split; [reflexivity |]. split.
      * eexists. split; [reflexivity |]. split; [| discriminate].
        split; [eauto | reflexivity].
      * split; [reflexivity |]. split; [discriminate |]. split.
        -- intros p' n' [= <- <-] H1 H2. destruct p as [[|m ms]|]; cbn; congruence.
        -- intros H. exfalso. now apply (H p n).
Qed.

Lemma handleUpload_outcome_witness :
  progress (handleUpload {| file := true; uploading := false; progress := 100;
                            piiMatches := []; result := None |} 4 NetworkError)
  = Nat.min (10 * 4) 90.
Proof.
  refine (proj1 (proj2 (proj2 (proj2 (proj2 (handleUpload_outcome
            {| file := true; uploading := false; progress := 100;
               piiMatches := []; result := None |} 4 NetworkError) eq_refl)))) eq_refl).
Defined.

(** X20: the preview table and the line under it account for every
    detected match: the rows are the first 20 matches, and the line
    appears exactly when matches were left out and names how many. *)
Theorem preview_accounts_for_all (ms : list Ingest.PIIMatch) :
  preview_rows ms ++ skipn 20 ms = ms /\
  length (preview_rows ms) = Nat.min 20 (length ms) /\
  match remainder ms with
  | Some k => 1 <= k /\ length (preview_rows ms) + k = length ms
  | None => preview_rows ms = ms
  end.
Proof.
  unfold preview_rows, remainder. split; [apply firstn_skipn | split].
  - apply length_firstn.
  - destruct (Nat.ltb_spec 20 (length ms)) as [H | H].
    + rewrite length_firstn. lia.
    + apply firstn_all2. exact H.
Qed.

End UploadFacts.

(** ** The chat page *)

Module ChatFacts.
Import Text Chat.

(** X21: a submit with a blank input or while a request is pending does
    nothing and sends nothing.  Otherwise the question is posted as
    typed, the history is fetched only after a reply arrived, and the
    handler ends with the input cleared and [loading] off. *)
Theorem handleSubmit_requests (st : State) (chat : fetched Reply)
    (hist : fetched (list HistoryItem)) :
  (blank (input st) = true \/ loading st = true ->
   handleSubmit st chat hist = (st, [])) /\
  (blank (input st) = false -> loading st = false ->
   let st' := fst (handleSubmit st chat hist) in
   snd (handleSubmit st chat hist)
     = PostChat (input st) ::
       match chat with
       | Fetched _ => [GetHistory]
       | Failed => []
       end /\
   loading st' = false /\ input st' = [] /\
   history st' = match chat, hist with
                 | Fetched _, Fetched data => data
                 | _, _ => history st
                 end /\
   selectedHistoryIndex st' = match chat with
                              | Fetched _ => Some 0
                              | Failed => selectedHistoryIndex st
                              end).
Proof.
  unfold handleSubmit. split.
  - intros [-> | ->]; [reflexivity | now rewrite orb_true_r].
  - intros -> ->. cbn [orb]. cbv zeta.
    destruct chat as [data|]; [| repeat split].
    destruct hist as [[|item rest]|]; [repeat split | | repeat split].
    cbn. destruct (messages st); repeat split.
Qed.

Lemma handleSubmit_requests_witness :
  handleSubmit {| messages := []; input := of_string "  "; loading := false;
                  history := []; selectedHistoryIndex := None |} Failed Failed
  = ({| messages := []; input := of_string "  "; loading := false;
        history := []; selectedHistoryIndex := None |}, []).
Proof.
  apply (handleSubmit_requests
           {| messages := []; input := of_string "  "; loading := false;
              history := []; selectedHistoryIndex := None |} Failed Failed).
  left. reflexivity.
Defined.

(** X22: what a submitted question leaves in the chat.  A failed request
    appends the question and the connection error, which carries the
    warning.  A reply appends the question and the reply, unless the chat
    was empty when the question was sent and the history that comes back
    is not: then the chat is replaced by the first history item, whose
    answer is marked answerable, so no warning is shown whatever the
    reply said. *)
Theorem handleSubmit_messages (st : State) (chat : fetched Reply)
    (hist : fetched (list HistoryItem)) :
  blank (input st) = false -> loading st = false ->
  let st' := fst (handleSubmit st chat hist) in
  (chat = Failed ->
   messages st' = messages st ++ [userMessage (input st); errorMessage]) /\
  (forall data, chat = Fetched data ->
     messages st <> [] \/ hist = Failed \/ hist = Fetched [] ->
     messages st' = messages st ++ [userMessage (input st); assistantMessage data]) /\
  (forall data item rest, chat = Fetched data ->
     messages st = [] -> hist = Fetched (item :: rest) ->
     messages st' = [userMessage (question item); historyMessage item] /\
     existsb warns (messages st') = false).
Proof.
  intros Hb Hl. unfold handleSubmit. rewrite Hb, Hl. cbn [orb]. cbv zeta.
  split; [| split].
  - intros ->. cbn. now rewrite <- app_assoc.
  - intros data -> H. cbn.
    destruct hist as [[|item rest]|]; cbn; try now rewrite <- app_assoc.
    destruct (messages st) as [|m ms] eqn:E; cbn.
    + destruct H as [H | [H | H]]; [contradiction | discriminate | discriminate].
    + now rewrite <- app_assoc.
  - intros data item rest -> E ->. cbn. rewrite E. cbn. split; reflexivity.
Qed.

Lemma handleSubmit_messages_witness :
  existsb warns
    (messages (fst (handleSubmit fresh_chat (Fetched no_evidence_reply)
                      (Fetched [no_evidence_item])))) = false.
Proof.
  exact (proj2 (proj2 (proj2 (handleSubmit_messages fresh_chat
                                (Fetched no_evidence_reply) (Fetched [no_evidence_item])
                                eq_refl eq_refl))
                 no_evidence_reply no_evidence_item [] eq_refl eq_refl eq_refl)).
Defined.

Example warning_shown_in_running_chat :
  let st := {| messages := [userMessage (of_string "Hallo"); errorMessage];
               input := input fresh_chat; loading := false; history := [];
               selectedHistoryIndex := None |} in
  map warns (messages (fst (handleSubmit st (Fetched no_evidence_reply)
                              (Fetched [no_evidence_item]))))
  = [false; true; false; true].
Proof. reflexivity. Qed.

End ChatFacts.

(** ** The evaluation page *)

Module EvaluationFacts.
Import Evaluation.
Local Open Scope Q_scope.





Example hybrid_needs_more_than_a_tie :
  let m := {| precision := 1 # 2; recall := 1 # 2; mrr := 1 # 2 |} in
  option_map key (winner {| vector := m; hybrid := m; rerank := m |})
  = Some "vector"%string.
Proof. reflexivity. Qed.

Lemma existsb_eqb_In (cat : string) (l : list string) :
  existsb (String.eqb cat) l = true <-> In cat l.
Proof.
  rewrite existsb_exists. split.
  - intros (c & Hc & E). apply String.eqb_eq in E. now subst.
  - intros H. exists cat. split; [exact H | apply String.eqb_refl].
Qed.

Lemma filter_none {A : Type} (p : A -> bool) (l : list A) :
  (forall x, In x l -> p x = true) -> List.filter p l = l.
Proof.
  induction l as [|x l IH]; simpl; intros H; [reflexivity |].
  rewrite (H x) by now left. f_equal. apply IH. intros y Hy. apply H. now right.
Qed.

(** X25: a click on a category flips its membership in the selection and
    leaves every other category as it was; a selection without
    duplicates stays so, and two clicks on a category that was not
    selected restore the selection. *)
Theorem toggleCategory_spec (cat : string) (prev : list string) :
  (In cat (toggleCategory cat prev) <-> ~ In cat prev) /\
  (forall c, c <> cat -> (In c (toggleCategory cat prev) <-> In c prev)) /\
  (List.NoDup prev -> List.NoDup (toggleCategory cat prev)) /\
  (~ In cat prev -> toggleCategory cat (toggleCategory cat prev) = prev).
Proof.
  unfold toggleCategory at 1 2 3.
  destruct (existsb (String.eqb cat) prev) eqn:E.
  - apply existsb_eqb_In in E. split; [| split; [| split]].
    + rewrite List.filter_In, String.eqb_refl. simpl. split; [intros [_ H] | ]; [discriminate | tauto].
    + intros c Hc. rewrite List.filter_In.
      apply String.eqb_neq in Hc. rewrite Hc. simpl. tauto.
    + apply List.NoDup_filter.
    + tauto.
  - assert (Hn : ~ In cat prev).
    { intros H. apply existsb_eqb_In in H. congruence. }
    split; [| split; [| split]].
    + rewrite in_app_iff. simpl. tauto.
    + intros c Hc. rewrite in_app_iff. simpl. split; [| tauto].
      intros [H | [H | []]]; [exact H | congruence].
    + intros Hnd. apply List.NoDup_app.
      * exact Hnd.
      * constructor; [intros [] | constructor].
      * intros x Hx [<- | []]. contradiction.
    + intros _. unfold toggleCategory. rewrite E.
      assert (E' : existsb (String.eqb cat) (prev ++ [cat]) = true).
      { apply existsb_eqb_In, in_or_app. right. now left. }
      rewrite E'. rewrite List.filter_app. simpl. rewrite String.eqb_refl. simpl.
      rewrite app_nil_r. apply filter_none. intros c Hc.
      apply negb_true_iff, String.eqb_neq. intros ->. contradiction.
Qed.

Lemma toggleCategory_spec_witness :
  toggleCategory "CLIMATE" (toggleCategory "CLIMATE" ["NAVIGATION"%string])
  = ["NAVIGATION"%string].
Proof.
  apply (toggleCategory_spec "CLIMATE" ["NAVIGATION"%string]).
  intros [H | []]. discriminate.
Defined.

End EvaluationFacts.
(** ** The export page *)

Module ExportFacts.
Import Text Feedbacks ExportPage.

Lemma includes_In (value : str) (selected : list str) :
  includes value selected = true <-> In value selected.
Proof.
  unfold includes. rewrite existsb_exists. split.
  - intros (s & Hs & E). apply bool_decide_eq_true in E. now subst.
  - intros H. exists value. split; [exact H | now apply bool_decide_eq_true].
Qed.

Lemma narrow_filter (field : FeedbackItem -> str) (selected : list str)
    (l : list FeedbackItem) :
  narrow field selected l =
  List.filter (fun fb => negb (nonempty selected) || includes (field fb) selected) l.
Proof.
  destruct selected as [|s sel]; cbn [narrow nonempty negb orb].
  - symmetry. now apply EvaluationFacts.filter_none.
  - reflexivity.
Qed.

Lemma filter_filter {A : Type} (p q : A -> bool) (l : list A) :
  List.filter q (List.filter p l) = List.filter (fun x => p x && q x) l.
Proof.
  induction l as [|x l IH]; simpl; [reflexivity |].
  destruct (p x); simpl; [destruct (q x) |]; now rewrite IH.
Qed.

(** X26: the number shown next to the export button is the number of
    feedbacks the export works on: the single test of [filteredCount]
    and the three successive filters of [generateExport] select the same
    feedbacks in the same order, namely those whose label, model and
    market are among the selected values of each non-empty selection. *)
Theorem filteredCount_agrees (feedbacks : list FeedbackItem)
    (selectedLabels selectedModels selectedMarkets : list str) :
  List.filter (counted selectedLabels selectedModels selectedMarkets) feedbacks
    = filtered feedbacks selectedLabels selectedModels selectedMarkets /\
  filteredCount feedbacks selectedLabels selectedModels selectedMarkets
    = length (filtered feedbacks selectedLabels selectedModels selectedMarkets) /\
  sublist (filtered feedbacks selectedLabels selectedModels selectedMarkets) feedbacks /\
  (forall fb,
     In fb (filtered feedbacks selectedLabels selectedModels selectedMarkets) <->
     In fb feedbacks /\
     (selectedLabels = [] \/ In (label fb) selectedLabels) /\
     (selectedModels = [] \/ In (vehicle_model fb) selectedModels) /\
     (selectedMarkets = [] \/ In (market fb) selectedMarkets)).
Proof.
  assert (E : List.filter (counted selectedLabels selectedModels selectedMarkets) feedbacks
              = filtered feedbacks selectedLabels selectedModels selectedMarkets).
  { unfold filtered. cbv zeta. rewrite !narrow_filter, !filter_filter.
    apply List.filter_ext. intros fb. unfold counted.
    destruct (nonempty selectedLabels), (includes (label fb) selectedLabels),
      (nonempty selectedModels), (includes (vehicle_model fb) selectedModels),
      (nonempty selectedMarkets), (includes (market fb) selectedMarkets);
      reflexivity. }
  split; [exact E | split; [| split]].
  - unfold filteredCount. now rewrite E.
  - rewrite <- E. apply FeedbacksFacts.filter_sublist.
  - intros fb. rewrite <- E, List.filter_In. unfold counted.
    rewrite <- !includes_In.
    destruct selectedLabels as [|l ls], selectedModels as [|m ms],
      selectedMarkets as [|k ks]; cbn [nonempty andb negb];
      repeat match goal with
             | |- context [includes ?a ?b] => destruct (includes a b)
             end; cbn [negb]; intuition discriminate.
Qed.

Lemma distinct_from (values seen : list str) :
  NoDup seen ->
  NoDup (fold_left (fun seen v => Problems.set_add v seen) values seen) /\
  (forall v, v ∈ fold_left (fun seen v => Problems.set_add v seen) values seen
             <-> v ∈ seen \/ v ∈ values).
Proof.
  revert seen. induction values as [|x values IH]; intros seen Hnd; cbn [fold_left].
  - split; [exact Hnd |]. intros v. rewrite elem_of_nil. tauto.
  - destruct (IH (Problems.set_add x seen)) as [H1 H2].
    + now apply ProblemsFacts.set_add_nodup.
    + split; [exact H1 |]. intros v.
      rewrite H2, ProblemsFacts.set_add_spec, elem_of_cons. tauto.
Qed.

(** X27: the options offered by a filter are the distinct non-empty
    values of the field among the loaded feedbacks, and every offered
    option, selected alone, leaves at least one feedback. *)
Theorem unique_options (field : FeedbackItem -> str) (feedbacks : list FeedbackItem) :
  NoDup (unique field feedbacks) /\
  (forall v, In v (unique field feedbacks) <->
             v <> [] /\ exists fb, In fb feedbacks /\ field fb = v) /\
  (forall v, In v (unique field feedbacks) -> narrow field [v] feedbacks <> []).
Proof.
  unfold unique, distinct.
  destruct (distinct_from (List.filter truthy (map field feedbacks)) [] (NoDup_nil_2))
    as [Hnd Hin].
  assert (Hspec : forall v,
            In v (fold_left (fun seen v => Problems.set_add v seen)
                    (List.filter truthy (map field feedbacks)) []) <->
            v <> [] /\ exists fb, In fb feedbacks /\ field fb = v).
  { intros v. rewrite <- list_elem_of_In, Hin, elem_of_nil, list_elem_of_In.
    rewrite List.filter_In, in_map_iff. split.
    - intros [[] | [(fb & E & Hfb) Ht]]. split; [| now exists fb].
      intros ->. discriminate.
    - intros [Hne (fb & Hfb & E)]. right. split; [now exists fb |].
      destruct v; [contradiction | reflexivity]. }
  split; [exact Hnd | split; [exact Hspec |]].
  intros v Hv. apply Hspec in Hv as [_ (fb & Hfb & E)].
  cbn [narrow]. intros Hnil.
  assert (In fb (List.filter (fun fb => includes (field fb) [v]) feedbacks)) as H.
  { apply List.filter_In. split; [exact Hfb |]. apply includes_In. now left. }
  rewrite Hnil in H. destruct H.
Qed.

Lemma unique_options_witness :
  let fb := {| id := of_string "fb_1"; text := []; label := of_string "NAVIGATION";
               source_type := []; language := []; timestamp := [];
               vehicle_model := []; market := [] |} in
  narrow label [of_string "NAVIGATION"] [fb] <> [].
Proof.
  cbv zeta.
  refine (proj2 (proj2 (unique_options label [_])) (of_string "NAVIGATION") _).
  vm_compute. tauto.
Defined.

(** The count stored for a key, 0 when it has no entry. *)
Lemma incr_keys (k : str) (acc : list (str * nat)) :
  map fst (incr k acc) =
  if decide (k ∈ map fst acc) then map fst acc else map fst acc ++ [k].
Proof.
  induction acc as [|[k' n] acc IH]; cbn [incr map fst].
  - destruct (decide (k ∈ [])) as [H | H]; [inversion H | reflexivity].
  - destruct (bool_decide_reflect (k' = k)) as [-> | Hk]; cbn [map fst].
    + rewrite decide_True by constructor. reflexivity.
    + rewrite IH. destruct (decide (k ∈ map fst acc)) as [H | H].
      * rewrite decide_True by now constructor. reflexivity.
      * rewrite decide_False; [reflexivity |].
        intros H'. apply elem_of_cons in H' as [-> | H']; contradiction.
Qed.

Lemma incr_nodup (k : str) (acc : list (str * nat)) :
  NoDup (map fst acc) -> NoDup (map fst (incr k acc)).
Proof.
  intros H. rewrite incr_keys. destruct (decide (k ∈ map fst acc)) as [Hin | Hin].
  - exact H.
  - apply NoDup_app. split; [exact H | split].
    + intros x Hx Hx'. apply list_elem_of_singleton in Hx' as ->. contradiction.
    + apply NoDup_singleton.
Qed.

Lemma stored_incr (k k' : str) (acc : list (str * nat)) :
  stored k' (incr k acc) = stored k' acc + (if bool_decide (k = k') then 1 else 0).
Proof.
  induction acc as [|[k0 n0] acc IH]; cbn [incr stored].
  - destruct (bool_decide (k = k')); reflexivity.
  - destruct (bool_decide_reflect (k0 = k)) as [-> | Hne]; cbn [stored].
    + destruct (bool_decide (k = k')); lia.
    + rewrite IH. destruct (bool_decide_reflect (k0 = k')) as [-> | Hne'].
      * rewrite bool_decide_eq_false_2 by congruence. lia.
      * reflexivity.
Qed.

Lemma incr_positive (k : str) (acc : list (str * nat)) :
  Forall (fun e => 1 <= snd e) acc -> Forall (fun e => 1 <= snd e) (incr k acc).
Proof.
  induction 1 as [|[k0 n0] acc H0 H IH]; cbn [incr].
  - repeat constructor.
  - destruct (bool_decide (k0 = k)); constructor; simpl in *; try lia; assumption.
Qed.

Lemma incr_sum (k : str) (acc : list (str * nat)) :
  list_sum (map snd (incr k acc)) = list_sum (map snd acc) + 1.
Proof.
  assert (C : forall a l, list_sum (a :: l) = a + list_sum l) by reflexivity.
  induction acc as [|[k0 n0] acc IH]; cbn [incr].
  - reflexivity.
  - destruct (bool_decide (k0 = k)); cbn [map snd]; rewrite !C; lia.
Qed.

Lemma tally_from (keys : list str) (acc : list (str * nat)) :
  NoDup (map fst acc) -> Forall (fun e => 1 <= snd e) acc ->
  let g := fold_left (fun acc k => incr k acc) keys acc in
  NoDup (map fst g) /\ Forall (fun e => 1 <= snd e) g /\
  (forall k, stored k g = stored k acc + occurrences k keys) /\
  list_sum (map snd g) = list_sum (map snd acc) + length keys.
Proof.
  revert acc. induction keys as [|k keys IH]; intros acc Hnd Hpos; cbn [fold_left].
  - cbv zeta. split; [exact Hnd | split; [exact Hpos | split]].
    + intros k. unfold occurrences. simpl. lia.
    + simpl. lia.
  - destruct (IH (incr k acc) (incr_nodup k acc Hnd) (incr_positive k acc Hpos))
      as (H1 & H2 & H3 & H4).
    cbv zeta. split; [exact H1 | split; [exact H2 | split]].
    + intros k'. rewrite H3, stored_incr. unfold occurrences. cbn [List.filter].
      destruct (bool_decide (k = k')); simpl; lia.
    + rewrite H4, incr_sum. simpl. lia.
Qed.

Lemma stored_in (k : str) (n : nat) (acc : list (str * nat)) :
  NoDup (map fst acc) -> In (k, n) acc -> stored k acc = n.
Proof.
  induction acc as [|[k0 n0] acc IH]; cbn [stored map fst]; [intros _ [] |].
  intros Hnd [E | Hin].
  - injection E as -> ->. now rewrite bool_decide_eq_true_2.
  - apply NoDup_cons in Hnd as [Hk Hnd].
    rewrite bool_decide_eq_false_2; [now apply IH |].
    intros ->. apply Hk, list_elem_of_In. now apply (List.in_map fst) in Hin.
Qed.

Lemma in_stored (k : str) (acc : list (str * nat)) :
  1 <= stored k acc -> In (k, stored k acc) acc.
Proof.
  induction acc as [|[k0 n0] acc IH]; cbn [stored]; [lia |].
  destruct (bool_decide_reflect (k0 = k)) as [-> | Hne].
  - intros _. now left.
  - intros H. right. now apply IH.
Qed.

Lemma list_sum_perm (l1 l2 : list nat) :
  Permutation l1 l2 -> list_sum l1 = list_sum l2.
Proof. induction 1; simpl in *; lia. Qed.

Lemma by_number_desc_total (a b : str * nat) :
  by_number_desc a b = true \/ by_number_desc b a = true.
Proof. unfold by_number_desc. rewrite !Nat.leb_le. lia. Qed.

Lemma by_number_desc_trans (a b c : str * nat) :
  Ordering.holds by_number_desc a b -> Ordering.holds by_number_desc b c ->
  Ordering.holds by_number_desc a c.
Proof. unfold Ordering.holds, by_number_desc. rewrite !Nat.leb_le. lia. Qed.

Lemma strongly_sorted_impl {A : Type} (R R' : A -> A -> Prop) (l : list A) :
  (forall a b, R a b -> R' a b) -> StronglySorted R l -> StronglySorted R' l.
Proof.
  intros H. induction 1 as [|a l Hs IH Hall]; constructor; [exact IH |].
  eapply List.Forall_impl; [| exact Hall]. intros b. apply H.
Qed.

(** X28: the summary of a ticket groups the exported feedbacks by label,
    model or market.  For keys that a plain object keeps in insertion
    order, every key appears once with the number of feedbacks that have
    it, the numbers add up to the number of exported feedbacks, and the
    groups are listed from the largest to the smallest. *)
Theorem grouped_spec (key : FeedbackItem -> str) (feedbacks : list FeedbackItem) :
  forallb plain (map key feedbacks) = true ->
  exists g, grouped key feedbacks = Some g /\
    NoDup (map fst g) /\
    (forall k n, In (k, n) g <-> n = occurrences k (map key feedbacks) /\ 1 <= n) /\
    list_sum (map snd g) = length feedbacks /\
    StronglySorted (fun a b => snd b <= snd a) g.
Proof.
  intros Hplain. unfold grouped, tally. rewrite Hplain. cbn [option_map].
  eexists. split; [reflexivity |].
  set (keys := map key feedbacks).
  destruct (tally_from keys [] (NoDup_nil_2) (Forall_nil_2 _)) as (Hnd & Hpos & Hst & Hsum).
  set (g := fold_left (fun acc k => incr k acc) keys []) in *.
  pose proof (OrderingFacts.sort_perm by_number_desc g) as Hperm.
  assert (Hin : forall k n, In (k, n) g <-> n = occurrences k keys /\ 1 <= n).
  { intros k n. split.
    - intros H. split.
      + rewrite <- (stored_in k n g Hnd H), Hst. simpl. lia.
      + rewrite List.Forall_forall in Hpos. apply (Hpos (k, n) H).
    - intros [-> H]. specialize (Hst k). simpl in Hst. rewrite <- Hst in *.
      now apply in_stored. }
  split; [| split; [| split]].
  - eapply NoDup_Permutation_proper; [| exact Hnd].
    apply Permutation_map. exact Hperm.
  - intros k n. rewrite <- Hin. split; apply Permutation_in; [exact Hperm | now symmetry].
  - rewrite (list_sum_perm _ _ (Permutation_map snd Hperm)), Hsum.
    simpl. unfold keys. now rewrite length_map.
  - apply (strongly_sorted_impl (Ordering.holds by_number_desc)).
    + intros a b Hab. now apply Nat.leb_le.
    + apply OrderingFacts.sort_strongly_sorted;
        [apply by_number_desc_total | apply by_number_desc_trans].
Qed.

Lemma grouped_spec_witness :
  let fb (l : string) :=
    {| id := []; text := []; label := of_string l; source_type := [];
       language := []; timestamp := []; vehicle_model := []; market := [] |} in
  exists g, byLabel [fb "CLIMATE"; fb ""; fb "NAVIGATION"; fb "CLIMATE"] = Some g /\
    list_sum (map snd g) = 4.
Proof.
  cbv zeta.
  destruct (grouped_spec (fun fb => or_else "UNKNOWN" (label fb))
              (map (fun l => {| id := []; text := []; label := of_string l;
                                source_type := []; language := []; timestamp := [];
                                vehicle_model := []; market := [] |})
                   ["CLIMATE"; ""; "NAVIGATION"; "CLIMATE"]%string) eq_refl)
    as (g & Hg & _ & _ & Hsum & _).
  exists g. split; [exact Hg | exact Hsum].
Defined.

Example byLabel_sample :
  let fb (l : string) :=
    {| id := []; text := []; label := of_string l; source_type := [];
       language := []; timestamp := []; vehicle_model := []; market := [] |} in
  option_map (map (fun e => (to_string (fst e), snd e)))
             (byLabel [fb "CLIMATE"; fb ""; fb "NAVIGATION"; fb "CLIMATE"])
  = Some [("CLIMATE", 2); ("UNKNOWN", 1); ("NAVIGATION", 1)]%string.
Proof. vm_compute. reflexivity. Qed.

End ExportFacts.

(** ** The settings page *)

Module SettingsFacts.
Import Settings.
Local Open Scope Q_scope.

(** X29: settings survive a save and reload: loading the body that
    [handleSave] sends gives the saved settings back, a switched-off
    guardrail and a temperature of 0 included; a field missing from the
    reply takes its default, and a failed request leaves the settings as
    they are. *)
Theorem settings_round_trip (current saved : Settings) (data : Payload) :
  fetchSettings current (Some (body saved)) = saved /\
  fetchSettings current None = current /\
  (p_temperature data = None -> p_citation_required data = None ->
   p_unanswerable_guard data = None -> p_confliction_detection data = None ->
   fetchSettings current (Some data) = defaults) /\
  (forall b, p_unanswerable_guard data = Some b ->
             unanswerable_guard (fetchSettings current (Some data)) = b).
Proof.
  split; [now destruct saved | split; [reflexivity | split]].
  - intros H1 H2 H3 H4. unfold fetchSettings. now rewrite H1, H2, H3, H4.
  - intros b H. cbn. now rewrite H.
Qed.

Lemma settings_round_trip_witness :
  unanswerable_guard
    (fetchSettings defaults
       (Some {| p_temperature := Some 0; p_citation_required := None;
                p_unanswerable_guard := Some false;
                p_confliction_detection := None |})) = false.
Proof.
  refine (proj2 (proj2 (proj2 (settings_round_trip defaults defaults _))) false _).
  reflexivity.
Defined.

End SettingsFacts.

(** ** The CSV form of a ticket *)

Module CsvFacts.
Import Text Feedbacks ExportPage Csv.

Lemma read_quoted_escape (text value rest : str) :
  match rest with
  | [] => True
  | c :: _ => c <> quote
  end ->
  read_quoted (escape text ++ quote :: rest) value = Some (value ++ text, rest).
Proof.
  intros Hrest. revert value. induction text as [|c text IH]; intros value.
  - cbn [escape flat_map app read_quoted]. rewrite Ascii.eqb_refl, app_nil_r.
    destruct rest as [|c' rest]; [reflexivity |].
    apply Ascii.eqb_neq in Hrest. now rewrite Hrest.
  - unfold escape in *. cbn [flat_map]. destruct (Ascii.eqb c quote) eqn:E.
    + apply Ascii.eqb_eq in E as ->. cbn [app read_quoted].
      rewrite !Ascii.eqb_refl, IH, <- app_assoc. reflexivity.
    + cbn [app read_quoted]. rewrite E, IH, <- app_assoc. reflexivity.
Qed.

Lemma escape_quote_free (value : str) : quote_free value = true -> escape value = value.
Proof.
  unfold quote_free, escape. induction value as [|c value IH]; cbn [forallb flat_map].
  - reflexivity.
  - intros H. apply andb_true_iff in H as [Hc Hv]. apply negb_true_iff in Hc.
    rewrite Hc, IH by exact Hv. reflexivity.
Qed.

Lemma read_quoted_plain (field value rest : str) :
  quote_free field = true ->
  match rest with
  | [] => True
  | c :: _ => c <> quote
  end ->
  read_quoted (field ++ quote :: rest) value = Some (value ++ field, rest).
Proof.
  intros Hf Hrest. rewrite <- (escape_quote_free field Hf) at 1.
  now apply read_quoted_escape.
Qed.

(** X30: a CSV row can be read back field by field when id, label,
    model, market and source type contain no double quote: a reader that
    follows RFC 4180 gets the six values, the text unchanged whatever
    quotes it contains. *)
Theorem row_reads_back (fb : FeedbackItem) :
  quote_free (id fb) = true -> quote_free (label fb) = true ->
  quote_free (vehicle_model fb) = true -> quote_free (market fb) = true ->
  quote_free (source_type fb) = true ->
  read_fields 6 (row fb)
  = Some [id fb; text fb; label fb; vehicle_model fb; market fb; source_type fb].
Proof.
  intros H1 H2 H3 H4 H5. unfold row, quoted. cbn [join of_string list_ascii_of_string].
  assert (Hc : ","%char <> quote) by discriminate.
  repeat (rewrite <- ?app_assoc; cbn [app]).
  cbn [read_fields]. rewrite Ascii.eqb_refl.
  rewrite read_quoted_plain by (assumption || exact Hc). cbn [app option_map].
  cbn [read_fields Ascii.eqb Bool.eqb]. rewrite Ascii.eqb_refl.
  rewrite read_quoted_escape by exact Hc. cbn [app option_map].
  cbn [read_fields Ascii.eqb Bool.eqb]. rewrite Ascii.eqb_refl.
  rewrite read_quoted_plain by (assumption || exact Hc). cbn [app option_map].
  cbn [read_fields Ascii.eqb Bool.eqb]. rewrite Ascii.eqb_refl.
  rewrite read_quoted_plain by (assumption || exact Hc). cbn [app option_map].
  cbn [read_fields Ascii.eqb Bool.eqb]. rewrite Ascii.eqb_refl.
  rewrite read_quoted_plain by (assumption || exact Hc). cbn [app option_map].
  cbn [read_fields Ascii.eqb Bool.eqb]. rewrite Ascii.eqb_refl.
  rewrite read_quoted_plain by (assumption || exact I). cbn [app option_map].
  reflexivity.
Qed.

Lemma row_reads_back_witness :
  let fb := {| id := of_string "fb_1";
               text := quoted (of_string "Hey VW") ++ of_string " wird ignoriert";
               label := of_string "NAVIGATION"; source_type := of_string "voice";
               language := of_string "de"; timestamp := [];
               vehicle_model := of_string "ID.4"; market := of_string "DE" |} in
  read_fields 6 (row fb)
  = Some [id fb; text fb; label fb; vehicle_model fb; market fb; source_type fb].
Proof.
  cbv zeta.
  apply (row_reads_back
           {| id := of_string "fb_1";
              text := quoted (of_string "Hey VW") ++ of_string " wird ignoriert";
              label := of_string "NAVIGATION"; source_type := of_string "voice";
              language := of_string "de"; timestamp := [];
              vehicle_model := of_string "ID.4"; market := of_string "DE" |});
    reflexivity.
Defined.

Example quote_in_label_breaks_row :
  let fb := {| id := of_string "fb_1"; text := of_string "ok";
               label := quote :: of_string "A"; source_type := []; language := [];
               timestamp := []; vehicle_model := []; market := [] |} in
  read_fields 6 (row fb) = None.
Proof. vm_compute. reflexivity. Qed.

End CsvFacts.
